(** * Clinic and affiliate record store: domain rules of [affiliates.py]
      and [clinical.py]

    The two Python modules keep every collection in a flat file that is read
    whole and rewritten whole.  Here a collection is the list of its records
    and each domain function takes the collections it reads and returns its
    result code together with the collection it writes back.

    Conventions of the embedding:
    - a Python [str] is a [string], one character per code point; code points
      above 255 are outside the model;
    - a Python [int] is a [Z];
    - a call that raises returns [None];
    - result codes are the very strings the source returns. *)

From Stdlib Require Import ZArith String Ascii List Sorted Permutation QArith Lia.
From Stdlib Require Import DecimalString DecimalZ DecimalPos.
From stdpp Require Import base option list strings gmap.

Local Open Scope string_scope.
Local Open Scope list_scope.
Local Open Scope Z_scope.

(** ** Exceptions

    Every call below that can raise raises one exception only ([ValueError]
    from [strptime] and [int], [IndexError] from list indexing), so a
    computation that may raise is an [option] and [None] is the exception. *)

(** Left fold with a body that may raise: a [for] loop. *)
Fixpoint foldM {A B : Type} (f : A -> B -> option A) (a : A) (l : list B)
  : option A :=
  match l with
  | [] => Some a
  | b :: l' => a' ← f a b; foldM f a' l'
  end.

(** Map with a function that may raise: a generator consumed in order. *)
Fixpoint mapO {A B : Type} (f : A -> option B) (l : list A) : option (list B) :=
  match l with
  | [] => Some []
  | a :: l' => b ← f a; bs ← mapO f l'; Some (b :: bs)
  end.

(** ** Strings *)

Module Py.

(** [str.isspace] on one character: U+0009..U+000D, U+001C..U+0020, U+0085
    and U+00A0 are the white-space code points below 256. *)
Definition isspace (c : ascii) : bool :=
  let n := N_of_ascii c in
  ((9 <=? n) && (n <=? 13) || (28 <=? n) && (n <=? 32)
   || (n =? 133) || (n =? 160))%N.

Definition isdigit (c : ascii) : bool :=
  let n := N_of_ascii c in ((48 <=? n) && (n <=? 57))%N.

Definition digit_value (c : ascii) : Z := Z.of_N (N_of_ascii c) - 48.

Fixpoint lstrip (s : string) : string :=
  match s with
  | EmptyString => EmptyString
  | String c s' => if isspace c then lstrip s' else s
  end.

Fixpoint rstrip (s : string) : string :=
  match s with
  | EmptyString => EmptyString
  | String c s' =>
      match rstrip s' with
      | EmptyString => if isspace c then EmptyString else String c EmptyString
      | r => String c r
      end
  end.

(** [s.strip()] *)
Definition strip (s : string) : string := rstrip (lstrip s).

(** [not s.strip()]: the stripped string is empty. *)
Definition blank (s : string) : bool :=
  match strip s with EmptyString => true | _ => false end.

(** [str.lower] on one character: A..Z, and the upper-case letters
    U+00C0..U+00DE other than the multiplication sign U+00D7. *)
Definition lower_char (c : ascii) : ascii :=
  let n := N_of_ascii c in
  if ((65 <=? n) && (n <=? 90)
      || (192 <=? n) && (n <=? 222) && negb (n =? 215))%N
  then ascii_of_N (n + 32) else c.

Fixpoint lower (s : string) : string :=
  match s with
  | EmptyString => EmptyString
  | String c s' => String (lower_char c) (lower s')
  end.

(** [a > b] on strings: lexicographic on code points. *)
Definition gt (a b : string) : bool :=
  match String.compare a b with Gt => true | _ => false end.

(** [needle in hay] for a one-character needle. *)
Fixpoint contains (needle : ascii) (hay : string) : bool :=
  match hay with
  | EmptyString => false
  | String c s' => if Ascii.eqb needle c then true else contains needle s'
  end.

(** The white space that [int] skips around a number.  The interpreter
    leaves code points below 127 as they are, turns white space above them
    into a blank, and then skips blank, tab, line feed, vertical tab, form
    feed and carriage return only: U+001C..U+001F are not skipped, although
    [str.strip] strips them. *)
Definition int_space (c : ascii) : bool :=
  let n := N_of_ascii c in
  ((9 <=? n) && (n <=? 13) || (n =? 32) || (n =? 133) || (n =? 160))%N.

Fixpoint int_lstrip (s : string) : string :=
  match s with
  | EmptyString => EmptyString
  | String c s' => if int_space c then int_lstrip s' else s
  end.

Fixpoint int_rstrip (s : string) : string :=
  match s with
  | EmptyString => EmptyString
  | String c s' =>
      match int_rstrip s' with
      | EmptyString => if int_space c then EmptyString else String c EmptyString
      | r => String c r
      end
  end.

(** [int(s)] for a string: the white space above is skipped at both ends,
    one sign is allowed, then decimal digits, where single underscores may
    separate digits.  Anything else raises [ValueError].  (The interpreter's
    configurable limit on the number of digits is not part of the model.) *)
Fixpoint int_digits (after_digit : bool) (acc : Z) (s : string) : option Z :=
  match s with
  | EmptyString => if after_digit then Some acc else None
  | String c s' =>
      if isdigit c then int_digits true (10 * acc + digit_value c) s'
      else if Ascii.eqb c "_" && after_digit then int_digits false acc s'
      else None
  end.

Definition int (s : string) : option Z :=
  match int_rstrip (int_lstrip s) with
  | String c r =>
      if Ascii.eqb c "+" then int_digits false 0 r
      else if Ascii.eqb c "-" then z ← int_digits false 0 r; Some (- z)
      else int_digits false 0 (String c r)
  | EmptyString => None
  end.

(** [str(n)] for an integer: decimal digits, with a leading minus sign for a
    negative number. *)
Definition str (n : Z) : string := NilEmpty.string_of_int (Z.to_int n).

End Py.


(** ** Dates and times: [datetime.strptime] for the two formats in use *)

Module Datetime.

Record date : Set := Date { year : Z; month : Z; day : Z }.
Record time : Set := Time { hour : Z; minute : Z }.

Definition is_leap (y : Z) : bool :=
  (y mod 4 =? 0) && (negb (y mod 100 =? 0) || (y mod 400 =? 0)).

Definition days_in_month (y m : Z) : Z :=
  if m =? 2 then (if is_leap y then 29 else 28)
  else if (m =? 4) || (m =? 6) || (m =? 9) || (m =? 11) then 30
  else 31.

(** Days of the year before the first day of month [m]. *)
Definition days_before_month (y m : Z) : Z :=
  fold_right Z.add 0 (map (days_in_month y) (map Z.of_nat (seq 1 (Z.to_nat m - 1)))).

Definition days_before_year (y : Z) : Z :=
  let p := y - 1 in p * 365 + p / 4 - p / 100 + p / 400.

(** [date.toordinal]: 1 is 01/01/0001. *)
Definition toordinal (d : date) : Z :=
  days_before_year (year d) + days_before_month (year d) (month d) + day d.

(** [date.weekday]: 0 is Monday, 6 is Sunday. *)
Definition weekday (d : date) : Z := (toordinal d + 6) mod 7.

(** [date(y, m, d)] raises unless the triple is a calendar date. *)
Definition valid_date (y m d : Z) : bool :=
  (1 <=? y) && (y <=? 9999) && (1 <=? m) && (m <=? 12)
  && (1 <=? d) && (d <=? days_in_month y m).

(** The pieces of the regular expression [strptime] builds from a format.
    Each returns every way it matches a prefix of the input, with the rest of
    the input, in the order backtracking tries them. *)
Definition cls (lo hi : ascii) (c : ascii) : bool :=
  (N_of_ascii lo <=? N_of_ascii c)%N && (N_of_ascii c <=? N_of_ascii hi)%N.

Definition one (p : ascii -> bool) (s : string) : list (Z * string) :=
  match s with
  | String a r => if p a then [(Py.digit_value a, r)] else []
  | _ => []
  end.

Definition two (p q : ascii -> bool) (s : string) : list (Z * string) :=
  match s with
  | String a (String b r) =>
      if p a && q b then [(10 * Py.digit_value a + Py.digit_value b, r)] else []
  | _ => []
  end.

Definition lit (c : ascii) (s : string) : list string :=
  match s with
  | String a r => if Ascii.eqb a c then [r] else []
  | _ => []
  end.

(** [%d] is [3[0-1]|[1-2]\d|0[1-9]|[1-9]| [1-9]]. *)
Definition re_d (s : string) : list (Z * string) :=
  two (cls "3" "3") (cls "0" "1") s ++ two (cls "1" "2") Py.isdigit s
  ++ two (cls "0" "0") (cls "1" "9") s ++ one (cls "1" "9") s
  ++ (r ← lit " " s; one (cls "1" "9") r).

(** [%m] is [1[0-2]|0[1-9]|[1-9]]. *)
Definition re_m (s : string) : list (Z * string) :=
  two (cls "1" "1") (cls "0" "2") s ++ two (cls "0" "0") (cls "1" "9") s
  ++ one (cls "1" "9") s.

(** [%Y] is [\d\d\d\d]. *)
Definition re_Y (s : string) : list (Z * string) :=
  '(hi, r) ← two Py.isdigit Py.isdigit s;
  '(lo, r') ← two Py.isdigit Py.isdigit r;
  [(100 * hi + lo, r')].

(** [%H] is [2[0-3]|[0-1]\d|\d]. *)
Definition re_H (s : string) : list (Z * string) :=
  two (cls "2" "2") (cls "0" "3") s ++ two (cls "0" "1") Py.isdigit s
  ++ one Py.isdigit s.

(** [%M] is [[0-5]\d|\d]. *)
Definition re_M (s : string) : list (Z * string) :=
  two (cls "0" "5") Py.isdigit s ++ one Py.isdigit s.

(** The first match of the whole expression for ["%d/%m/%Y"]. *)
Definition match_date (s : string) : list (Z * Z * Z * string) :=
  '(d, s1) ← re_d s; s2 ← lit "/" s1;
  '(m, s3) ← re_m s2; s4 ← lit "/" s3;
  '(y, s5) ← re_Y s4; [(y, m, d, s5)].

Definition match_time (s : string) : list (Z * Z * string) :=
  '(h, s1) ← re_H s; s2 ← lit ":" s1;
  '(m, s3) ← re_M s2; [(h, m, s3)].

(** [datetime.strptime(s, "%d/%m/%Y").date()].  [None] is [ValueError]: no
    match, unconverted data after the match, or an impossible date. *)
Definition strptime_date (s : string) : option date :=
  match match_date s with
  | (y, m, d, EmptyString) :: _ =>
      if valid_date y m d then Some (Date y m d) else None
  | _ => None
  end.

(** [datetime.strptime(s, "%H:%M").time()]. *)
Definition strptime_time (s : string) : option time :=
  match match_time s with
  | (h, m, EmptyString) :: _ => Some (Time h m)
  | _ => None
  end.

(** [a <= b] on times. *)
Definition time_le (a b : time) : bool :=
  (hour a <? hour b) || (hour a =? hour b) && (minute a <=? minute b).

End Datetime.

(** ** Records *)

(** A row of [affiliates.csv]: the seven columns, all text. *)
Module Affiliate.
Record t : Set := Make {
  id : string; names : string; surnames : string; birth : string;
  plan : string; gender : string; email : string }.
End Affiliate.

(** A line of [users.txt].  [name] is read with [u["name"]]; the other keys
    are read with [.get], so they may be missing.  The session flag is a JSON
    boolean. *)
Module User.
Record t : Set := Make {
  name : string; password : option string; role : option string;
  session : option bool }.
End User.

(** A line of [appointments.txt]. *)
Module Appointment.
Record t : Set := Make {
  id : string; patient : string; doctor : string; date : string;
  time : string; status : string }.

Definition set_status (c : t) (s : string) : t :=
  Make (id c) (patient c) (doctor c) (date c) (time c) s.
End Appointment.

(** The appointment id of a cancel request, as it comes out of the JSON body:
    text or a number; [str_id] is [str(appointment_id)]. *)
Inductive json_id : Set := JStr (s : string) | JInt (n : Z).

Definition str_id (a : json_id) : string :=
  match a with JStr s => s | JInt n => Py.str n end.

(** ** Result codes *)

Definition ok : string := "ok".
Definition invalid_data : string := "invalid data".
Definition invalid_date_format : string := "invalid date format".
Definition id_already_exists : string := "id already exists".
Definition out_of_range : string := "out of range".
Definition doctor_not_found : string := "doctor not found".
Definition not_logged_in : string := "user not logged in".
Definition slot_taken : string := "slot taken".
Definition not_found : string := "not found".

(** The code the specification of [validateSlot] names for a parse failure,
    spelled the way the source spells its codes.  No function of the source
    returns it. *)
Definition invalid_format : string := "invalid format".

(** ** [affiliates.py] *)

Definition _find_user (lista : list User.t) (nombre : string) : option User.t :=
  List.find (fun u => String.eqb (User.name u) nombre) lista.

(** [findUser] loads the user file and searches it. *)
Definition findUser (users : list User.t) (nombre : string) : option User.t :=
  _find_user users nombre.

Definition convertir_fecha (cadena : string) : option Datetime.date :=
  Datetime.strptime_date cadena.

(** [hoy] is [date.today()]. *)
Definition calcular_edad (hoy fecha_nacimiento : Datetime.date) : Z :=
  let before :=
    (Datetime.month hoy <? Datetime.month fecha_nacimiento)
    || (Datetime.month hoy =? Datetime.month fecha_nacimiento)
       && (Datetime.day hoy <? Datetime.day fecha_nacimiento) in
  Datetime.year hoy - Datetime.year fecha_nacimiento - (if before then 1 else 0).

Definition plan_valido (p : string) : bool :=
  String.eqb p "A" || String.eqb p "B" || String.eqb p "C".

Definition genero_valido (g : string) : bool :=
  String.eqb g "M" || String.eqb g "F" || String.eqb g "X".

Definition correo_valido (e : string) : bool :=
  Py.contains "@" e && Py.contains "." e.

Definition registerAffiliate (afiliados : list Affiliate.t)
    (id_afiliado nombres apellidos nacimiento plan genero correo : string)
  : string * list Affiliate.t :=
  if existsb Py.blank
       [id_afiliado; nombres; apellidos; nacimiento; plan; genero; correo]
  then (invalid_data, afiliados)
  else match convertir_fecha nacimiento with
  | None => (invalid_date_format, afiliados)
  | Some _ =>
  if negb (plan_valido plan) || negb (genero_valido genero)
     || negb (correo_valido correo)
  then (invalid_data, afiliados)
  else if existsb (fun af => String.eqb (Affiliate.id af) id_afiliado) afiliados
  then (id_already_exists, afiliados)
  else
    let nuevo :=
      Affiliate.Make id_afiliado nombres apellidos nacimiento plan genero correo in
    (ok, afiliados ++ [nuevo])
  end.

(** One comparison of the bubble sort: [afiliados[j]] against
    [afiliados[j+1]], swapped in place when out of order.  Reading past the
    end raises [IndexError]. *)
Definition swap_if (afiliados : list Affiliate.t) (j : nat)
  : option (list Affiliate.t) :=
  a ← afiliados !! j;
  b ← afiliados !! S j;
  if Py.gt (Py.lower (Affiliate.surnames a)) (Py.lower (Affiliate.surnames b))
  then Some (<[S j := a]> (<[j := b]> afiliados))
  else Some afiliados.

Definition listAffiliates (afiliados : list Affiliate.t)
  : option (list Affiliate.t) :=
  let n := length afiliados in
  foldM (fun l i => foldM swap_if l (seq 0 (n - i - 1))) afiliados (seq 0 n).

Definition searchById (afiliados : list Affiliate.t) (id_afiliado : string)
  : option Affiliate.t :=
  List.find (fun af => String.eqb (Affiliate.id af) id_afiliado) afiliados.

(** The three accumulators of the loop in [stats]. *)
Record stats_acc : Type := StatsAcc {
  totales_plan : gmap string Z;
  edades_por_genero : gmap string (list Z);
  todas_las_edades : list Z }.

Definition stats_step (hoy : Datetime.date) (acc : stats_acc) (af : Affiliate.t)
  : stats_acc :=
  let tp :=
    match totales_plan acc !! Affiliate.plan af with
    | Some k => <[Affiliate.plan af := k + 1]> (totales_plan acc)
    | None => totales_plan acc
    end in
  match convertir_fecha (Affiliate.birth af) with
  | None => StatsAcc tp (edades_por_genero acc) (todas_las_edades acc)
  | Some nacimiento =>
      let edad := calcular_edad hoy nacimiento in
      let todas := todas_las_edades acc ++ [edad] in
      match edades_por_genero acc !! Affiliate.gender af with
      | Some e =>
          StatsAcc tp (<[Affiliate.gender af := e ++ [edad]]> (edades_por_genero acc))
                   todas
      | None => StatsAcc tp (edades_por_genero acc) todas
      end
  end.

Definition sum (l : list Z) : Z := fold_right Z.add 0 l.

(** [min] and [max] of a non-empty list. *)
Definition min_list (x : Z) (l : list Z) : Z := fold_left Z.min l x.
Definition max_list (x : Z) (l : list Z) : Z := fold_left Z.max l x.

(** [sum(e) / len(e) if e else 0.0].  The model keeps the quotient itself, as
    a fraction; the interpreter returns the floating-point number nearest to
    it (26.666666666666668 for 80/3), and 0.0, which is exact, for the empty
    list.  The properties below state of a mean only what holds of both: which
    ages it is computed from, when it is 0, and bounds by whole numbers. *)
Definition promedio (e : list Z) : Q :=
  match e with
  | [] => 0%Q
  | _ => Qmake (sum e) (Pos.of_nat (length e))
  end.

(** The dictionary [stats] returns: [{}] for an empty collection, the four
    aggregates otherwise. *)
Inductive stats_dict : Type :=
| EmptyDict
| StatsDict (totales : gmap string Z) (promedios_por_genero : gmap string Q)
            (edad_minima edad_maxima : Z).

Definition stats (hoy : Datetime.date) (afiliados : list Affiliate.t) : stats_dict :=
  match afiliados with
  | [] => EmptyDict
  | _ =>
      let init :=
        StatsAcc (<["A" := 0]> (<["B" := 0]> (<["C" := 0]> ∅)))
                 (<["M" := []]> (<["F" := []]> (<["X" := []]> ∅))) [] in
      let acc := fold_left (stats_step hoy) afiliados init in
      StatsDict (totales_plan acc) (promedio <$> edades_por_genero acc)
        (match todas_las_edades acc with [] => 0 | x :: l => min_list x l end)
        (match todas_las_edades acc with [] => 0 | x :: l => max_list x l end)
  end.

(** ** [clinical.py] *)

(** [max(int(r.get("id", 0)) for r in rows) + 1], as text.  [int] raises on
    an id that is not a number. *)
Definition _next_id (rows : list Appointment.t) : option string :=
  match rows with
  | [] => Some "1"
  | _ =>
      ids ← mapO (fun r => Py.int (Appointment.id r)) rows;
      match ids with
      | [] => None
      | x :: l => Some (Py.str (max_list x l + 1))
      end
  end.

(** The two bounds [strptime("08:00", "%H:%M").time()] and
    [strptime("16:00", "%H:%M").time()]. *)
Definition opening : Datetime.time := Datetime.Time 8 0.
Definition closing : Datetime.time := Datetime.Time 16 0.

Definition _valid_slot (date_str time_str : string) : string :=
  match Datetime.strptime_date date_str, Datetime.strptime_time time_str with
  | Some fecha, Some hora =>
      if 4 <? Datetime.weekday fecha then out_of_range
      else if negb (Datetime.time_le opening hora && Datetime.time_le hora closing)
      then out_of_range
      else if negb ((Datetime.minute hora =? 0) || (Datetime.minute hora =? 30))
      then out_of_range
      else ok
  | _, _ => invalid_data
  end.

(** [not user or user.get("password") != password
     or not user.get("session", False)] *)
Definition not_authenticated (user : option User.t) (password : string) : bool :=
  match user with
  | None => true
  | Some u =>
      negb (bool_decide (User.password u = Some password))
      || negb (default false (User.session u))
  end.

(** The collision test of step 5, on one appointment. *)
Definition collides (doctor_name date_str time_str : string) (c : Appointment.t)
  : bool :=
  String.eqb (Appointment.doctor c) doctor_name
  && String.eqb (Appointment.date c) date_str
  && String.eqb (Appointment.time c) time_str
  && String.eqb (Appointment.status c) "scheduled".

Definition scheduleAppointment (users : list User.t) (citas : list Appointment.t)
    (patient_name patient_password doctor_name date_str time_str : string)
  : option (string * list Appointment.t) :=
  if existsb Py.blank
       [patient_name; patient_password; doctor_name; date_str; time_str]
  then Some (invalid_data, citas)
  else
  let doctor := findUser users doctor_name in
  if match doctor with
     | None => true
     | Some d => negb (bool_decide (User.role d = Some "doctor"))
     end
  then Some (doctor_not_found, citas)
  else
  let patient := findUser users patient_name in
  if not_authenticated patient patient_password
  then Some (not_logged_in, citas)
  else
  let estado_slot := _valid_slot date_str time_str in
  if negb (String.eqb estado_slot ok) then Some (estado_slot, citas)
  else
  if existsb (collides doctor_name date_str time_str) citas
  then Some (slot_taken, citas)
  else
    new_id ← _next_id citas;
    let nueva_cita :=
      Appointment.Make new_id patient_name doctor_name date_str time_str
        "scheduled" in
    Some (ok, citas ++ [nueva_cita]).

Definition listAppointments (users : list User.t) (citas : list Appointment.t)
    (name password : string) : string + list Appointment.t :=
  if not_authenticated (findUser users name) password then inl not_logged_in
  else inr (List.filter
              (fun c => String.eqb (Appointment.patient c) name
                        || String.eqb (Appointment.doctor c) name) citas).

(** The test of the cancel loop on one appointment. *)
Definition cancellable (appointment_id patient_name : string) (c : Appointment.t)
  : bool :=
  String.eqb (Appointment.id c) appointment_id
  && String.eqb (Appointment.patient c) patient_name
  && String.eqb (Appointment.status c) "scheduled".

(** The loop of [cancelAppointment]: the first appointment that passes the
    test is marked and the loop stops; [None] when [cita_encontrada] stays
    false. *)
Fixpoint cancel_loop (appointment_id patient_name : string)
    (citas : list Appointment.t) : option (list Appointment.t) :=
  match citas with
  | [] => None
  | c :: rest =>
      if cancellable appointment_id patient_name c
      then Some (Appointment.set_status c "cancelled" :: rest)
      else rest' ← cancel_loop appointment_id patient_name rest; Some (c :: rest')
  end.

Definition cancelAppointment (users : list User.t) (citas : list Appointment.t)
    (patient_name patient_password : string) (appointment_id : json_id)
  : string * list Appointment.t :=
  let patient := findUser users patient_name in
  if not_authenticated patient patient_password then (not_logged_in, citas)
  else
    match cancel_loop (str_id appointment_id) patient_name citas with
    | None => (not_found, citas)
    | Some citas' => (ok, citas')
    end.

(** ** Vocabulary of the specification *)

(** Blank: empty or white space only. *)
Fixpoint whitespace_only (s : string) : Prop :=
  match s with
  | EmptyString => True
  | String c s' => Py.isspace c = true /\ whitespace_only s'
  end.

(** The character [c] occurs in [s]. *)
Fixpoint has_char (c : ascii) (s : string) : Prop :=
  match s with
  | EmptyString => False
  | String a s' => a = c \/ has_char c s'
  end.

(** No two affiliates share an id. *)
Definition unique_ids (afiliados : list Affiliate.t) : Prop :=
  NoDup (map Affiliate.id afiliados).

(** The collections [registerAffiliate] can build from an empty store. *)
Inductive registered : list Affiliate.t -> Prop :=
| registered_empty : registered []
| registered_step afiliados i n a b p g e :
    registered afiliados ->
    registered (snd (registerAffiliate afiliados i n a b p g e)).

(** The seven fields pass every check that precedes the uniqueness check. *)
Definition valid_fields (i n a b p g e : string) : Prop :=
  ~ Exists whitespace_only [i; n; a; b; p; g; e]
  /\ convertir_fecha b <> None
  /\ In p ["A"; "B"; "C"] /\ In g ["M"; "F"; "X"]
  /\ has_char "@" e /\ has_char "." e.

(** The number a digit sequence denotes, read left to right from [acc]. *)
Fixpoint uint_value (acc : Z) (d : Decimal.uint) : Z :=
  match d with
  | Decimal.Nil => acc
  | Decimal.D0 l => uint_value (10 * acc + 0) l
  | Decimal.D1 l => uint_value (10 * acc + 1) l
  | Decimal.D2 l => uint_value (10 * acc + 2) l
  | Decimal.D3 l => uint_value (10 * acc + 3) l
  | Decimal.D4 l => uint_value (10 * acc + 4) l
  | Decimal.D5 l => uint_value (10 * acc + 5) l
  | Decimal.D6 l => uint_value (10 * acc + 6) l
  | Decimal.D7 l => uint_value (10 * acc + 7) l
  | Decimal.D8 l => uint_value (10 * acc + 8) l
  | Decimal.D9 l => uint_value (10 * acc + 9) l
  end.

Fixpoint digits_only (s : string) : Prop :=
  match s with
  | EmptyString => True
  | String c s' => Py.isdigit c = true /\ digits_only s'
  end.

(** Minutes since midnight. *)
Definition minutes_of (t : Datetime.time) : Z :=
  60 * Datetime.hour t + Datetime.minute t.

(** The sort key of [listAffiliates]: the surname in lower case. *)
Definition surname_key (a : Affiliate.t) : string :=
  Py.lower (Affiliate.surnames a).

Definition surname_gt (a b : Affiliate.t) : bool :=
  Py.gt (surname_key a) (surname_key b).

Definition surname_le (a b : Affiliate.t) : Prop :=
  String.leb (surname_key a) (surname_key b) = true.

(** The affiliates of [l] whose key is [k], in the order of [l]. *)
Definition with_key (k : string) (l : list Affiliate.t) : list Affiliate.t :=
  List.filter (fun a => String.eqb (surname_key a) k) l.

(** Letter case among the first 256 code points, stated apart from
    [str.lower]: the capital letters are A..Z and U+00C0..U+00DE without the
    multiplication sign U+00D7, and the small form of a capital letter lies 32
    code points above it. *)
Definition upper_letter (c : ascii) : bool :=
  let n := N_of_ascii c in
  ((65 <=? n) && (n <=? 90) || (192 <=? n) && (n <=? 214)
   || (216 <=? n) && (n <=? 222))%N.

(** Two characters are the same letter: equal, or one is the capital and the
    other its small form. *)
Definition same_letter (c d : ascii) : bool :=
  Ascii.eqb c d
  || upper_letter c && (N_of_ascii d =? N_of_ascii c + 32)%N
  || upper_letter d && (N_of_ascii c =? N_of_ascii d + 32)%N.

(** Two strings are equal up to the case of their letters. *)
Fixpoint same_ignoring_case (s t : string) : bool :=
  match s, t with
  | EmptyString, EmptyString => true
  | String c s', String d t' => same_letter c d && same_ignoring_case s' t'
  | _, _ => false
  end.

(** A string without capital letters. *)
Fixpoint no_upper (s : string) : bool :=
  match s with
  | EmptyString => true
  | String c s' => negb (upper_letter c) && no_upper s'
  end.

(** The 256 characters. *)
Definition all_chars : list ascii := map ascii_of_nat (seq 0 256).

(** The inner loop of the bubble sort read as a recursion on the list: [m]
    comparisons, from position 0 on.  [inner_loop_bubble] below proves that
    the loop over indices computes it. *)
Fixpoint bubble (m : nat) (l : list Affiliate.t) : list Affiliate.t :=
  match m, l with
  | S m', a :: b :: r =>
      if surname_gt a b then b :: bubble m' (a :: r) else a :: bubble m' (b :: r)
  | _, _ => l
  end.

(** The bounds of the successive inner loops: [k-1], ..., 1, 0. *)
Definition countdown (k : nat) : list nat := rev (seq 0 k).

(** The ages, in stored order, of the affiliates whose birth parses. *)
Definition edades (hoy : Datetime.date) (afiliados : list Affiliate.t) : list Z :=
  omap (fun af => calcular_edad hoy <$> convertir_fecha (Affiliate.birth af))
       afiliados.

(** The same, over the affiliates whose gender is M, F or X only. *)
Definition edades_genero (hoy : Datetime.date) (afiliados : list Affiliate.t)
  : list Z :=
  edades hoy (List.filter (fun af => genero_valido (Affiliate.gender af)) afiliados).

Definition is_min (m : Z) (l : list Z) : Prop := In m l /\ Forall (Z.le m) l.
Definition is_max (m : Z) (l : list Z) : Prop := In m l /\ Forall (Z.ge m) l.

Definition edad_minima_of (d : stats_dict) : option Z :=
  match d with EmptyDict => None | StatsDict _ _ mn _ => Some mn end.
Definition edad_maxima_of (d : stats_dict) : option Z :=
  match d with EmptyDict => None | StatsDict _ _ _ mx => Some mx end.

(** A user called [name] exists, the password matches and the session flag
    is true. *)
Definition authenticated (users : list User.t) (name password : string) : Prop :=
  exists u, findUser users name = Some u
            /\ User.password u = Some password /\ User.session u = Some true.

(** The patient is absent, or the password mismatches, or the session flag
    is not true. *)
Definition login_fails (users : list User.t) (name password : string) : Prop :=
  findUser users name = None
  \/ exists u, findUser users name = Some u
               /\ (User.password u <> Some password
                   \/ User.session u <> Some true).

Definition is_doctor (users : list User.t) (name : string) : Prop :=
  exists u, findUser users name = Some u /\ User.role u = Some "doctor".


(** Checks 1 to 4 of [scheduleAppointment] pass. *)
Definition passes (users : list User.t) (pn pw dn ds ts : string) : Prop :=
  ~ Exists whitespace_only [pn; pw; dn; ds; ts]
  /\ is_doctor users dn /\ authenticated users pn pw
  /\ _valid_slot ds ts = ok.

(** The (doctor, date, time) triple of an appointment. *)
Definition slot (c : Appointment.t) : string * string * string :=
  (Appointment.doctor c, Appointment.date c, Appointment.time c).

Definition is_scheduled (c : Appointment.t) : bool :=
  String.eqb (Appointment.status c) "scheduled".

(** The triples of the scheduled appointments, one entry per appointment. *)
Definition scheduled_slots (citas : list Appointment.t)
  : list (string * string * string) :=
  map slot (List.filter is_scheduled citas).

(** At most one scheduled appointment per (doctor, date, time). *)
Definition slot_invariant (citas : list Appointment.t) : Prop :=
  NoDup (scheduled_slots citas).

(** What a stored appointment holds: the doctor with the calendar date and
    the time of day that the stored strings denote under the two formats of
    [_valid_slot]. *)
Definition instant (c : Appointment.t)
  : option (string * Datetime.date * Datetime.time) :=
  d ← Datetime.strptime_date (Appointment.date c);
  t ← Datetime.strptime_time (Appointment.time c);
  Some (Appointment.doctor c, d, t).

Definition scheduled_instants (citas : list Appointment.t)
  : list (option (string * Datetime.date * Datetime.time)) :=
  map instant (List.filter is_scheduled citas).

(** No doctor has two scheduled appointments at one date and time. *)
Definition instant_invariant (citas : list Appointment.t) : Prop :=
  NoDup (scheduled_instants citas).

(** Every stored id reads as a number. *)
Definition ids_numeric (citas : list Appointment.t) : Prop :=
  Forall (fun c => Py.int (Appointment.id c) <> None) citas.

(** [vs] are the numbers the stored ids denote, in stored order. *)
Definition id_values (citas : list Appointment.t) (vs : list Z) : Prop :=
  Forall2 (fun c v => Py.int (Appointment.id c) = Some v) citas vs.

(** [n] is the next id: 1 for an empty collection, else the greatest stored
    number plus 1. *)
Definition next_number (citas : list Appointment.t) (n : Z) : Prop :=
  match citas with
  | [] => n = 1
  | _ => exists vs, id_values citas vs /\ is_max (n - 1) vs
  end.

(** The appointment that a cancel request for [appointment_id] by
    [patient_name] looks for. *)
Definition cancel_target (appointment_id patient_name : string)
    (c : Appointment.t) : Prop :=
  Appointment.id c = appointment_id
  /\ Appointment.patient c = patient_name
  /\ Appointment.status c = "scheduled".

(** The collections the two mutating functions can build from an empty
    store, whatever the user file holds at each call. *)
Inductive booked : list Appointment.t -> Prop :=
| booked_empty : booked []
| booked_schedule users citas pn pw dn ds ts r citas' :
    booked citas ->
    scheduleAppointment users citas pn pw dn ds ts = Some (r, citas') ->
    booked citas'
| booked_cancel users citas pn pw aid :
    booked citas ->
    booked (snd (cancelAppointment users citas pn pw aid)).

(** [valid_fields], as a test that computes. *)
Definition valid_fieldsb (i n a b p g e : string) : bool :=
  negb (existsb Py.blank [i; n; a; b; p; g; e])
  && match convertir_fecha b with Some _ => true | None => false end
  && plan_valido p && genero_valido g && correo_valido e.

(** A stored record whose seven fields pass the checks of
    [registerAffiliate]. *)
Definition well_formed (af : Affiliate.t) : Prop :=
  valid_fields (Affiliate.id af) (Affiliate.names af) (Affiliate.surnames af)
    (Affiliate.birth af) (Affiliate.plan af) (Affiliate.gender af)
    (Affiliate.email af).

(** How many affiliates have plan [p]. *)
Definition count_plan (p : string) (afiliados : list Affiliate.t) : Z :=
  Z.of_nat (length (List.filter (fun af => String.eqb (Affiliate.plan af) p)
                      afiliados)).

(** The ages, in stored order, of the affiliates of gender [g] whose birth
    parses. *)
Definition edades_de (hoy : Datetime.date) (g : string)
    (afiliados : list Affiliate.t) : list Z :=
  edades hoy (List.filter (fun af => String.eqb (Affiliate.gender af) g)
                afiliados).

(** Calendar order on dates. *)
Definition date_le (a b : Datetime.date) : Prop :=
  Datetime.year a < Datetime.year b
  \/ (Datetime.year a = Datetime.year b
      /\ (Datetime.month a < Datetime.month b
          \/ (Datetime.month a = Datetime.month b
              /\ Datetime.day a <= Datetime.day b))).

(** The user [name] is the patient or the doctor of the appointment. *)
Definition involves (name : string) (c : Appointment.t) : Prop :=
  Appointment.patient c = name \/ Appointment.doctor c = name.

(** The appointment ids 1, 2, ..., [n] as text. *)
Definition consecutive_ids (n : nat) : list string :=
  map (fun k => Py.str (Z.of_nat k)) (seq 1 n).

(** The entries [totales] and [promedios_por_genero] of the dictionary that
    [stats] returns; the empty dictionary has neither. *)
Definition totales_of (d : stats_dict) : option (gmap string Z) :=
  match d with EmptyDict => None | StatsDict t _ _ _ => Some t end.
Definition promedios_of (d : stats_dict) : option (gmap string Q) :=
  match d with EmptyDict => None | StatsDict _ p _ _ => Some p end.

(** What [cancelAppointment] for patient [pn] may do to one stored
    appointment: leave it, or turn a scheduled appointment of [pn] into a
    cancelled one. *)
Definition cancelled_from (pn : string) (c c' : Appointment.t) : Prop :=
  c' = c
  \/ (Appointment.patient c = pn /\ Appointment.status c = "scheduled"
      /\ c' = Appointment.set_status c "cancelled").

(** A stored appointment as [scheduleAppointment] writes it and
    [cancelAppointment] leaves it. *)
Definition stored_ok (c : Appointment.t) : Prop :=
  _valid_slot (Appointment.date c) (Appointment.time c) = ok
  /\ ~ whitespace_only (Appointment.patient c)
  /\ ~ whitespace_only (Appointment.doctor c)
  /\ (Appointment.status c = "scheduled" \/ Appointment.status c = "cancelled").

(** The test of [listAppointments] on one appointment. *)
Definition involvesb (name : string) (c : Appointment.t) : bool :=
  String.eqb (Appointment.patient c) name
  || String.eqb (Appointment.doctor c) name.

(** The number two digit characters denote. *)
Definition num2 (a b : ascii) : Z := 10 * Py.digit_value a + Py.digit_value b.

(** The text [dd/mm/yyyy] and the text [HH:MM] made of the given
    characters. *)
Definition fixed_date (d1 d0 m1 m0 y3 y2 y1 y0 : ascii) : string :=
  String d1 (String d0 (String "/" (String m1 (String m0 (String "/"
    (String y3 (String y2 (String y1 (String y0 EmptyString))))))))).

Definition fixed_time (h1 h0 m1 m0 : ascii) : string :=
  String h1 (String h0 (String ":" (String m1 (String m0 EmptyString)))).

(** ** Sample data *)

Definition ana : Affiliate.t :=
  Affiliate.Make "1010" "Ana" "Diaz" "01/02/1990" "A" "F" "ana@eps.co".

Definition zoe : Affiliate.t :=
  Affiliate.Make "2020" "Zoe" "Rey" "01/01/1950" "B" "Z" "zoe@eps.co".

Definition bob : Affiliate.t :=
  Affiliate.Make "3030" "Bob" "Paz" "01/01/2000" "C" "M" "bob@eps.co".

Definition hoy_ej : Datetime.date := Datetime.Date 2024 6 15.

(** Three affiliates whose surnames differ in case. *)
Definition zea : Affiliate.t :=
  Affiliate.Make "4040" "Luz" "Zea" "05/05/1985" "A" "F" "luz@eps.co".

Definition abad : Affiliate.t :=
  Affiliate.Make "5050" "Gil" "abad" "06/06/1986" "B" "M" "gil@eps.co".

Definition abad_mayus : Affiliate.t :=
  Affiliate.Make "6060" "Eva" "ABAD" "07/07/1987" "C" "X" "eva@eps.co".

Definition usuarios : list User.t :=
  [ User.Make "pepe" (Some "clave") (Some "patient") (Some true);
    User.Make "ruiz" (Some "x1") (Some "doctor") None;
    User.Make "soto" (Some "x2") (Some "doctor") (Some false);
    User.Make "lola" (Some "abc") (Some "patient") (Some true) ].

Definition agenda : list Appointment.t :=
  [ Appointment.Make "1" "lola" "ruiz" "11/03/2024" "09:00" "scheduled";
    Appointment.Make "2" "lola" "soto" "12/03/2024" "10:30" "cancelled";
    Appointment.Make "5" "pepe" "ruiz" "13/03/2024" "08:00" "scheduled" ].

(** * Properties *)

(** ** Strings *)

Lemma rstrip_empty_iff s : Py.rstrip s = "" <-> whitespace_only s.
Proof.
  induction s as [|c s IH]; simpl; [tauto|].
  destruct (Py.rstrip s) eqn:E.
  - destruct (Py.isspace c); split; intros H; try discriminate; try tauto.
    destruct H; discriminate.
  - split; [discriminate|]. intros [_ H]. apply IH in H. discriminate.
Qed.

Lemma lstrip_whitespace_only s : whitespace_only (Py.lstrip s) <-> whitespace_only s.
Proof.
  induction s as [|c s IH]; simpl; [tauto|].
  destruct (Py.isspace c) eqn:E; simpl; rewrite ?E; [tauto|].
  split; intros [H _]; discriminate.
Qed.

Lemma blank_iff s : Py.blank s = true <-> whitespace_only s.
Proof.
  unfold Py.blank, Py.strip.
  rewrite <- lstrip_whitespace_only, <- rstrip_empty_iff.
  destruct (Py.rstrip (Py.lstrip s)); split; congruence.
Qed.

Lemma blank_false_iff s : Py.blank s = false <-> ~ whitespace_only s.
Proof.
  rewrite <- blank_iff. destruct (Py.blank s); split; congruence.
Qed.

Lemma contains_iff c s : Py.contains c s = true <-> has_char c s.
Proof.
  induction s as [|a s IH]; simpl; [split; [discriminate|tauto]|].
  destruct (Ascii.eqb_spec c a) as [->|Hne]; [tauto|].
  rewrite IH. split; [tauto|]. intros [H|H]; [congruence|trivial].
Qed.

Lemma existsb_blank_iff l :
  existsb Py.blank l = true <-> Exists whitespace_only l.
Proof.
  rewrite existsb_exists, List.Exists_exists.
  split; intros (s & Hin & H); exists s; split; trivial; now apply blank_iff.
Qed.

Lemma existsb_blank_false l :
  existsb Py.blank l = false <-> Forall (fun s => ~ whitespace_only s) l.
Proof.
  rewrite List.Forall_Exists_neg, <- existsb_blank_iff.
  destruct (existsb Py.blank l); split; congruence.
Qed.

Lemma plan_valido_iff p : plan_valido p = true <-> In p ["A"; "B"; "C"].
Proof.
  unfold plan_valido. rewrite !orb_true_iff, !String.eqb_eq. simpl.
  intuition congruence.
Qed.

Lemma genero_valido_iff g : genero_valido g = true <-> In g ["M"; "F"; "X"].
Proof.
  unfold genero_valido. rewrite !orb_true_iff, !String.eqb_eq. simpl.
  intuition congruence.
Qed.

Lemma correo_valido_iff e :
  correo_valido e = true <-> has_char "@" e /\ has_char "." e.
Proof.
  unfold correo_valido. now rewrite andb_true_iff, !contains_iff.
Qed.

Lemma existsb_id_iff afiliados i :
  existsb (fun af => String.eqb (Affiliate.id af) i) afiliados = true
  <-> In i (map Affiliate.id afiliados).
Proof.
  rewrite existsb_exists, in_map_iff.
  split; intros (af & H1 & H2); exists af.
  - apply String.eqb_eq in H2. tauto.
  - split; [tauto|]. apply String.eqb_eq. tauto.
Qed.

(** ** [registerAffiliate] *)

Lemma registerAffiliate_blank afiliados i n a b p g e :
  Exists whitespace_only [i; n; a; b; p; g; e] ->
  registerAffiliate afiliados i n a b p g e = (invalid_data, afiliados).
Proof.
  intros H. apply existsb_blank_iff in H. unfold registerAffiliate.
  now rewrite H.
Qed.

Lemma registerAffiliate_bad_date afiliados i n a b p g e :
  ~ Exists whitespace_only [i; n; a; b; p; g; e] ->
  convertir_fecha b = None ->
  registerAffiliate afiliados i n a b p g e = (invalid_date_format, afiliados).
Proof.
  intros H Hb. apply List.Forall_Exists_neg, existsb_blank_false in H.
  unfold registerAffiliate. now rewrite H, Hb.
Qed.

Lemma registerAffiliate_bad_enum afiliados i n a b p g e :
  ~ Exists whitespace_only [i; n; a; b; p; g; e] ->
  convertir_fecha b <> None ->
  ~ (In p ["A"; "B"; "C"] /\ In g ["M"; "F"; "X"]
     /\ has_char "@" e /\ has_char "." e) ->
  registerAffiliate afiliados i n a b p g e = (invalid_data, afiliados).
Proof.
  intros H Hb He. apply List.Forall_Exists_neg, existsb_blank_false in H.
  unfold registerAffiliate. rewrite H.
  destruct (convertir_fecha b); [|congruence].
  rewrite <- plan_valido_iff, <- genero_valido_iff, <- correo_valido_iff in He.
  destruct (plan_valido p), (genero_valido g), (correo_valido e);
    simpl; trivial; exfalso; apply He; auto.
Qed.

Lemma registerAffiliate_valid afiliados i n a b p g e :
  valid_fields i n a b p g e ->
  registerAffiliate afiliados i n a b p g e =
  if existsb (fun af => String.eqb (Affiliate.id af) i) afiliados
  then (id_already_exists, afiliados)
  else (ok, afiliados ++ [Affiliate.Make i n a b p g e]).
Proof.
  intros (H & Hb & Hp & Hg & He).
  apply List.Forall_Exists_neg, existsb_blank_false in H.
  apply plan_valido_iff in Hp. apply genero_valido_iff in Hg.
  apply correo_valido_iff in He.
  unfold registerAffiliate. rewrite H, Hp, Hg, He.
  destruct (convertir_fecha b); [reflexivity|congruence].
Qed.

Lemma valid_fields_dec i n a b p g e :
  valid_fields i n a b p g e \/ ~ valid_fields i n a b p g e.
Proof.
  unfold valid_fields.
  rewrite <- List.Forall_Exists_neg, <- existsb_blank_false.
  rewrite <- plan_valido_iff, <- genero_valido_iff, <- correo_valido_iff.
  destruct (existsb Py.blank [i; n; a; b; p; g; e]); [right; intuition congruence|].
  destruct (convertir_fecha b); [|right; intuition congruence].
  destruct (plan_valido p); [|right; intuition congruence].
  destruct (genero_valido g); [|right; intuition congruence].
  destruct (correo_valido e); [|right; intuition congruence].
  left. intuition congruence.
Qed.

(** The collection only changes by the append of the new record, and only
    when the id is new. *)
Lemma registerAffiliate_store afiliados i n a b p g e :
  snd (registerAffiliate afiliados i n a b p g e) = afiliados
  \/ (~ In i (map Affiliate.id afiliados)
      /\ snd (registerAffiliate afiliados i n a b p g e)
         = afiliados ++ [Affiliate.Make i n a b p g e]).
Proof.
  unfold registerAffiliate.
  destruct (existsb Py.blank _); [now left|].
  destruct (convertir_fecha b); [|now left].
  destruct (negb _ || negb _ || negb _); [now left|].
  destruct (existsb _ afiliados) eqn:E; [now left|].
  right. split; [|reflexivity].
  rewrite <- existsb_id_iff. congruence.
Qed.

Lemma unique_ids_register afiliados i n a b p g e :
  unique_ids afiliados ->
  unique_ids (snd (registerAffiliate afiliados i n a b p g e)).
Proof.
  intros H.
  destruct (registerAffiliate_store afiliados i n a b p g e) as [->|[Hn ->]];
    trivial.
  unfold unique_ids in *. rewrite map_app. simpl.
  apply NoDup_app. repeat split; trivial.
  - intros x Hx Hx'. apply list_elem_of_In in Hx.
    apply list_elem_of_singleton in Hx'. subst. contradiction.
  - apply NoDup_singleton.
Qed.

Lemma valid_fieldsb_sound i n a b p g e :
  valid_fieldsb i n a b p g e = true -> valid_fields i n a b p g e.
Proof.
  unfold valid_fieldsb, valid_fields.
  rewrite !andb_true_iff, negb_true_iff, existsb_blank_false,
    List.Forall_Exists_neg, plan_valido_iff, genero_valido_iff,
    correo_valido_iff.
  destruct (convertir_fecha b); intuition congruence.
Qed.

(** C3 as stated fails: an input that repeats a stored id but carries an
    impossible birth date is answered with the date error, not with
    [id_already_exists]. *)
Lemma registerAffiliate_duplicate_id_bad_birth :
  In "1010" (map Affiliate.id [ana])
  /\ fst (registerAffiliate [ana] "1010" "Luis" "Mora" "31/02/1990" "B" "M"
           "luis@eps.co") <> id_already_exists.
Proof. split; [left; reflexivity | vm_compute; discriminate]. Qed.

(** C3, amended: for every input whose id equals the id of a stored affiliate,
    [registerAffiliate] returns [id_already_exists] when the seven fields pass
    the blank, date, plan, gender and email checks; when one of those checks
    fails it returns that check's code ([invalid_data] or
    [invalid_date_format]) instead.  The store is left as it was either way. *)
Theorem registerAffiliate_duplicate_id afiliados i n a b p g e :
  In i (map Affiliate.id afiliados) ->
  (valid_fields i n a b p g e ->
   registerAffiliate afiliados i n a b p g e = (id_already_exists, afiliados))
  /\ (~ valid_fields i n a b p g e ->
      (fst (registerAffiliate afiliados i n a b p g e) = invalid_data
       \/ fst (registerAffiliate afiliados i n a b p g e) = invalid_date_format)
      /\ snd (registerAffiliate afiliados i n a b p g e) = afiliados).
Proof.
  intros Hin. split.
  - intros Hv. rewrite registerAffiliate_valid by assumption.
    apply existsb_id_iff in Hin. now rewrite Hin.
  - intros Hv. unfold valid_fields in Hv.
    destruct (existsb Py.blank [i; n; a; b; p; g; e]) eqn:Eb.
    + apply existsb_blank_iff in Eb.
      rewrite registerAffiliate_blank by assumption. auto.
    + apply existsb_blank_false, List.Forall_Exists_neg in Eb.
      destruct (convertir_fecha b) eqn:Ed.
      * rewrite (registerAffiliate_bad_enum afiliados i n a b p g e Eb);
          [auto | congruence |].
        intros He. apply Hv. repeat split; try tauto. congruence.
      * rewrite registerAffiliate_bad_date; auto.
Qed.

Lemma registerAffiliate_duplicate_id_witness :
  In "1010" (map Affiliate.id [ana])
  /\ registerAffiliate [ana] "1010" "Luis" "Mora" "12/10/1985" "B" "M"
       "luis@eps.co" = (id_already_exists, [ana]).
Proof.
  split; [left; reflexivity|].
  apply (registerAffiliate_duplicate_id [ana] "1010" "Luis" "Mora" "12/10/1985"
           "B" "M" "luis@eps.co"); [left; reflexivity|].
  apply valid_fieldsb_sound. vm_compute. reflexivity.
Defined.

(** C4: [registerAffiliate] checks in a fixed order and returns the first
    failing code: [invalid_data] when a field is blank; then
    [invalid_date_format] when the birth does not parse; then [invalid_data]
    when the plan is not A, B or C, the gender is not M, F or X, or the email
    lacks an at sign or a dot; then [id_already_exists] when the id is stored;
    otherwise the record is appended to the written collection and the result
    is [ok].  Every failure writes nothing. *)
Theorem registerAffiliate_check_order afiliados i n a b p g e :
  let fields := [i; n; a; b; p; g; e] in
  let r := registerAffiliate afiliados i n a b p g e in
  let enums :=
    In p ["A"; "B"; "C"] /\ In g ["M"; "F"; "X"]
    /\ has_char "@" e /\ has_char "." e in
  (Exists whitespace_only fields -> r = (invalid_data, afiliados))
  /\ (~ Exists whitespace_only fields -> convertir_fecha b = None ->
      r = (invalid_date_format, afiliados))
  /\ (~ Exists whitespace_only fields -> convertir_fecha b <> None ->
      ~ enums -> r = (invalid_data, afiliados))
  /\ (~ Exists whitespace_only fields -> convertir_fecha b <> None ->
      enums -> In i (map Affiliate.id afiliados) ->
      r = (id_already_exists, afiliados))
  /\ (~ Exists whitespace_only fields -> convertir_fecha b <> None ->
      enums -> ~ In i (map Affiliate.id afiliados) ->
      r = (ok, afiliados ++ [Affiliate.Make i n a b p g e])).
Proof.
  cbv zeta. repeat split.
  - apply registerAffiliate_blank.
  - apply registerAffiliate_bad_date.
  - apply registerAffiliate_bad_enum.
  - intros H Hb He Hin. rewrite registerAffiliate_valid.
    + apply existsb_id_iff in Hin. now rewrite Hin.
    + unfold valid_fields. tauto.
  - intros H Hb He Hin. rewrite registerAffiliate_valid.
    + rewrite <- existsb_id_iff in Hin.
      destruct (existsb _ afiliados); [congruence|reflexivity].
    + unfold valid_fields. tauto.
Qed.

Lemma registerAffiliate_check_order_witness :
  ~ Exists whitespace_only
      ["2020"; "Zoe"; "Rey"; "01/01/1950"; "B"; "F"; "zoe@eps.co"]
  /\ convertir_fecha "01/01/1950" <> None
  /\ ~ In "2020" (map Affiliate.id [ana])
  /\ registerAffiliate [ana] "2020" "Zoe" "Rey" "01/01/1950" "B" "F" "zoe@eps.co"
     = (ok, [ana; Affiliate.Make "2020" "Zoe" "Rey" "01/01/1950" "B" "F"
                    "zoe@eps.co"]).
Proof.
  assert (Hb : ~ Exists whitespace_only
                 ["2020"; "Zoe"; "Rey"; "01/01/1950"; "B"; "F"; "zoe@eps.co"]).
  { apply List.Forall_Exists_neg, existsb_blank_false. reflexivity. }
  assert (Hd : convertir_fecha "01/01/1950" <> None)
    by (vm_compute; discriminate).
  assert (Hi : ~ In "2020" (map Affiliate.id [ana]))
    by (simpl; intuition discriminate).
  repeat (split; [assumption|]).
  apply (registerAffiliate_check_order [ana] "2020" "Zoe" "Rey" "01/01/1950"
           "B" "F" "zoe@eps.co"); trivial.
  simpl. tauto.
Defined.

(** C8: every collection built by [registerAffiliate] calls from the empty
    store holds each id at most once; [registerAffiliate] keeps that
    invariant, and it never appends a record whose id is already stored. *)
Theorem registerAffiliate_unique_ids :
  (forall afiliados, registered afiliados -> unique_ids afiliados)
  /\ (forall afiliados i n a b p g e,
        unique_ids afiliados ->
        unique_ids (snd (registerAffiliate afiliados i n a b p g e)))
  /\ (forall afiliados i n a b p g e,
        In i (map Affiliate.id afiliados) ->
        snd (registerAffiliate afiliados i n a b p g e) = afiliados).
Proof.
  repeat split.
  - induction 1; [apply NoDup_nil_2 | now apply unique_ids_register].
  - intros. now apply unique_ids_register.
  - intros afiliados i n a b p g e Hin.
    destruct (registerAffiliate_store afiliados i n a b p g e) as [H|[H _]];
      [assumption|contradiction].
Qed.

Lemma registerAffiliate_unique_ids_witness :
  unique_ids [ana]
  /\ unique_ids
       (snd (registerAffiliate [ana] "2020" "Zoe" "Rey" "01/01/1950" "B" "F"
               "zoe@eps.co"))
  /\ snd (registerAffiliate [ana] "1010" "Zoe" "Rey" "01/01/1950" "B" "F"
            "zoe@eps.co") = [ana].
Proof.
  assert (H : unique_ids [ana]).
  { unfold unique_ids. refine (bool_decide_unpack _ _). vm_compute. exact I. }
  split; [exact H|]. split.
  - now apply registerAffiliate_unique_ids.
  - apply registerAffiliate_unique_ids. left. reflexivity.
Defined.

(** ** [stats] *)

Lemma stats_step_todas hoy acc af :
  todas_las_edades (stats_step hoy acc af)
  = todas_las_edades acc ++ edades hoy [af].
Proof.
  unfold stats_step, edades. simpl.
  destruct (convertir_fecha (Affiliate.birth af)); simpl.
  - now destruct (edades_por_genero acc !! Affiliate.gender af).
  - now rewrite app_nil_r.
Qed.

Lemma edades_cons hoy af afiliados :
  edades hoy (af :: afiliados) = edades hoy [af] ++ edades hoy afiliados.
Proof.
  unfold edades. simpl.
  now destruct (convertir_fecha (Affiliate.birth af)).
Qed.

Lemma stats_loop_todas hoy afiliados acc :
  todas_las_edades (fold_left (stats_step hoy) afiliados acc)
  = todas_las_edades acc ++ edades hoy afiliados.
Proof.
  revert acc. induction afiliados as [|af afiliados IH]; intros acc.
  - simpl. now rewrite app_nil_r.
  - rewrite edades_cons. cbn [fold_left].
    rewrite IH, stats_step_todas. now rewrite <- List.app_assoc.
Qed.

Lemma min_list_spec l x : is_min (min_list x l) (x :: l).
Proof.
  unfold min_list. revert x. induction l as [|y l IH]; intros x; simpl.
  - split; [now left|]. repeat constructor. lia.
  - destruct (IH (Z.min x y)) as [Hin Hall]. split.
    + destruct Hin as [Hin|Hin]; [|now right; right].
      rewrite <- Hin. destruct (Z.min_spec x y) as [[_ ->]|[_ ->]]; simpl; auto.
    + inversion Hall as [|? ? Hm Hl]; subst.
      repeat constructor; trivial; lia.
Qed.

Lemma max_list_spec l x : is_max (max_list x l) (x :: l).
Proof.
  unfold max_list. revert x. induction l as [|y l IH]; intros x; simpl.
  - split; [now left|]. repeat constructor. lia.
  - destruct (IH (Z.max x y)) as [Hin Hall]. split.
    + destruct Hin as [Hin|Hin]; [|now right; right].
      rewrite <- Hin. destruct (Z.max_spec x y) as [[_ ->]|[_ ->]]; simpl; auto.
    + inversion Hall as [|? ? Hm Hl]; subst.
      repeat constructor; trivial; lia.
Qed.

(** C9 as stated fails: an affiliate of gender Z born in 1950 sets the global
    maximum, although the oldest affiliate of a recognised gender is 24. *)
Lemma stats_maximum_counts_unrecognised_gender :
  edad_maxima_of (stats hoy_ej [zoe; bob]) = Some 74
  /\ edades_genero hoy_ej [zoe; bob] = [24]
  /\ ~ is_max 74 (edades_genero hoy_ej [zoe; bob]).
Proof.
  split; [|split]; [vm_compute; reflexivity | vm_compute; reflexivity |].
  intros [Hin _]. vm_compute in Hin. destruct Hin as [Hin|[]]. discriminate.
Qed.

(** C9, amended: [stats] computes the global minimum and maximum age over
    every affiliate whose birth parses as dd/mm/yyyy, whatever the gender;
    an affiliate with a malformed birth is skipped without an error; both
    are 0 when no birth parses; and for an empty collection the result is
    the empty dictionary. *)
Theorem stats_minimum_maximum hoy afiliados :
  (afiliados = [] -> stats hoy afiliados = EmptyDict)
  /\ (afiliados <> [] ->
      exists totales promedios mn mx,
        stats hoy afiliados = StatsDict totales promedios mn mx
        /\ (edades hoy afiliados = [] -> mn = 0 /\ mx = 0)
        /\ (edades hoy afiliados <> [] ->
            is_min mn (edades hoy afiliados)
            /\ is_max mx (edades hoy afiliados))).
Proof.
  split; [intros ->; reflexivity|].
  intros Hne. destruct afiliados as [|af afiliados]; [congruence|].
  unfold stats. do 4 eexists. split; [reflexivity|].
  rewrite stats_loop_todas. cbn [todas_las_edades app].
  destruct (edades hoy (af :: afiliados)) as [|x l]; split; try congruence.
  - auto.
  - intros _. split; [apply min_list_spec | apply max_list_spec].
Qed.

Lemma stats_minimum_maximum_witness :
  [zoe; bob] <> []
  /\ edades hoy_ej [zoe; bob] = [74; 24]
  /\ exists totales promedios mn mx,
       stats hoy_ej [zoe; bob] = StatsDict totales promedios mn mx
       /\ is_min mn [74; 24] /\ is_max mx [74; 24].
Proof.
  assert (Hne : [zoe; bob] <> []) by discriminate.
  assert (He : edades hoy_ej [zoe; bob] = [74; 24]) by reflexivity.
  split; [exact Hne|]. split; [exact He|].
  destruct (proj2 (stats_minimum_maximum hoy_ej [zoe; bob]) Hne)
    as (t & p & mn & mx & Hs & _ & Hmm).
  exists t, p, mn, mx. split; [exact Hs|].
  rewrite He in Hmm. apply Hmm. discriminate.
Defined.

(** ** [listAffiliates] *)

Section StringOrder.

Lemma ascii_compare_N (x y : ascii) :
  Ascii.compare x y = N.compare (N_of_ascii x) (N_of_ascii y).
Proof. reflexivity. Qed.

Lemma string_compare_refl s : String.compare s s = Eq.
Proof.
  induction s as [|c s IH]; simpl; trivial.
  now rewrite ascii_compare_N, N.compare_refl.
Qed.

Lemma string_leb_trans a b c :
  String.leb a b = true -> String.leb b c = true -> String.leb a c = true.
Proof.
  unfold String.leb. revert b c.
  induction a as [|x a IH]; intros [|y b] [|z c]; simpl; trivial;
    try discriminate.
  rewrite !ascii_compare_N.
  destruct (N.compare_spec (N_of_ascii x) (N_of_ascii y)) as [E1|E1|E1];
    destruct (N.compare_spec (N_of_ascii y) (N_of_ascii z)) as [E2|E2|E2];
    destruct (N.compare_spec (N_of_ascii x) (N_of_ascii z)) as [E3|E3|E3];
    trivial; try discriminate; try lia.
  apply IH.
Qed.

Lemma gt_false_leb a b : Py.gt a b = false <-> String.leb a b = true.
Proof.
  unfold Py.gt, String.leb.
  destruct (String.compare a b); split; congruence.
Qed.

Lemma gt_true_leb a b : Py.gt a b = true -> String.leb b a = true.
Proof.
  unfold Py.gt, String.leb. rewrite (String.compare_antisym b a).
  destruct (String.compare a b); simpl; congruence.
Qed.

Lemma gt_true_neq a b : Py.gt a b = true -> a <> b.
Proof.
  unfold Py.gt. intros H ->. now rewrite string_compare_refl in H.
Qed.

End StringOrder.

Lemma surname_le_trans a b c : surname_le a b -> surname_le b c -> surname_le a c.
Proof. apply string_leb_trans. Qed.

Lemma surname_le_refl a : surname_le a a.
Proof.
  unfold surname_le, String.leb. now rewrite string_compare_refl.
Qed.

Lemma surname_gt_le a b : surname_gt a b = true -> surname_le b a.
Proof. apply gt_true_leb. Qed.

Lemma surname_not_gt_le a b : surname_gt a b = false -> surname_le a b.
Proof. apply gt_false_leb. Qed.

(** *** The loop over indices is the recursion on the list *)

Lemma swap_if_middle pre a b r :
  swap_if (pre ++ a :: b :: r) (length pre)
  = Some (pre ++ (if surname_gt a b then b :: a :: r else a :: b :: r)).
Proof.
  unfold swap_if.
  rewrite (list_lookup_middle pre (b :: r) a (length pre)) by reflexivity.
  cbn [mbind option_bind].
  rewrite (lookup_app_r pre (a :: b :: r) (S (length pre))) by lia.
  replace (S (length pre) - length pre)%nat with 1%nat by lia.
  cbn [lookup list_lookup mbind option_bind]. fold (surname_key a) (surname_key b).
  fold (surname_gt a b). destruct (surname_gt a b); [|reflexivity].
  rewrite (insert_app_r_alt pre _ (length pre)) by lia.
  rewrite (insert_app_r_alt pre _ (S (length pre))) by lia.
  replace (length pre - length pre)%nat with 0%nat by lia.
  replace (S (length pre) - length pre)%nat with 1%nat by lia.
  reflexivity.
Qed.

Lemma inner_loop_bubble m : forall pre l,
  (m < length l)%nat ->
  foldM swap_if (pre ++ l) (seq (length pre) m) = Some (pre ++ bubble m l).
Proof.
  induction m as [|m IH]; intros pre l Hm; [reflexivity|].
  destruct l as [|a [|b r]]; simpl in Hm; try lia.
  cbn [seq foldM bubble]. rewrite swap_if_middle. cbn [mbind option_bind].
  destruct (surname_gt a b).
  - replace (pre ++ b :: a :: r) with ((pre ++ [b]) ++ a :: r)
      by now rewrite <- List.app_assoc.
    replace (S (length pre)) with (length (pre ++ [b]))
      by (rewrite length_app; simpl; lia).
    rewrite IH by (simpl; lia). now rewrite <- List.app_assoc.
  - replace (pre ++ a :: b :: r) with ((pre ++ [a]) ++ b :: r)
      by now rewrite <- List.app_assoc.
    replace (S (length pre)) with (length (pre ++ [a]))
      by (rewrite length_app; simpl; lia).
    rewrite IH by (simpl; lia). now rewrite <- List.app_assoc.
Qed.

Lemma bubble_length m : forall l, length (bubble m l) = length l.
Proof.
  induction m as [|m IH]; intros [|a [|b r]]; simpl; trivial.
  destruct (surname_gt a b); simpl; now rewrite IH.
Qed.

Lemma outer_loop_bubble n : forall idx l,
  length l = n -> (0 < n)%nat ->
  foldM (fun l i => foldM swap_if l (seq 0 (n - i - 1))) l idx
  = Some (fold_left (fun l m => bubble m l) (map (fun i => n - i - 1)%nat idx) l).
Proof.
  induction idx as [|i idx IH]; intros l Hl Hn; [reflexivity|].
  cbn [foldM map fold_left].
  assert (H := inner_loop_bubble (n - i - 1) [] l).
  cbn [app length] in H. rewrite H by lia.
  cbn [mbind option_bind]. apply IH; trivial.
  now rewrite bubble_length.
Qed.

Lemma countdown_S k : countdown (S k) = k :: countdown k.
Proof.
  unfold countdown. rewrite seq_S, rev_app_distr. reflexivity.
Qed.

Lemma bounds_countdown n :
  map (fun i => n - i - 1)%nat (seq 0 n) = countdown n.
Proof.
  assert (H : forall k s, (s + k = n)%nat ->
            map (fun i => n - i - 1)%nat (seq s k) = countdown k).
  { induction k as [|k IH]; intros s Hs; [reflexivity|].
    rewrite countdown_S. cbn [seq map]. f_equal; [lia|].
    apply IH. lia. }
  apply H. lia.
Qed.

Lemma listAffiliates_bubble afiliados :
  listAffiliates afiliados
  = Some (fold_left (fun l m => bubble m l) (countdown (length afiliados))
            afiliados).
Proof.
  unfold listAffiliates. destruct afiliados as [|a l]; [reflexivity|].
  rewrite outer_loop_bubble by (simpl; lia || reflexivity).
  now rewrite bounds_countdown.
Qed.

(** *** One pass *)

Lemma bubble_perm m : forall l, Permutation (bubble m l) l.
Proof.
  induction m as [|m IH]; intros [|a [|b r]]; simpl; try reflexivity.
  destruct (surname_gt a b).
  - rewrite IH. apply perm_swap.
  - now rewrite IH.
Qed.

Lemma with_key_swap k a b r :
  surname_gt a b = true -> with_key k (b :: a :: r) = with_key k (a :: b :: r).
Proof.
  intros H. apply gt_true_neq in H. unfold with_key. simpl.
  destruct (String.eqb_spec (surname_key a) k), (String.eqb_spec (surname_key b) k);
    trivial.
  congruence.
Qed.

Lemma with_key_cons k a l l' :
  with_key k l = with_key k l' -> with_key k (a :: l) = with_key k (a :: l').
Proof.
  unfold with_key. simpl. intros ->. reflexivity.
Qed.

Lemma bubble_stable k m : forall l, with_key k (bubble m l) = with_key k l.
Proof.
  induction m as [|m IH]; intros [|a [|b r]]; cbn [bubble]; trivial.
  destruct (surname_gt a b) eqn:E.
  - rewrite (with_key_cons k b _ (a :: r)) by apply IH.
    now apply with_key_swap.
  - apply with_key_cons, IH.
Qed.

(** A pass over the whole list carries a greatest element to the end. *)
Lemma bubble_last m : forall l,
  length l = S m ->
  exists l' x, bubble m l = l' ++ [x] /\ Forall (fun y => surname_le y x) l.
Proof.
  induction m as [|m IH]; intros l Hl.
  - destruct l as [|a [|b r]]; try discriminate.
    exists [], a. split; [reflexivity|].
    constructor; [apply surname_le_refl | constructor].
  - destruct l as [|a [|b r]]; try discriminate. simpl.
    destruct (surname_gt a b) eqn:E.
    + destruct (IH (a :: r)) as (l' & x & Hb & Hall); [simpl in *; lia|].
      exists (b :: l'), x. rewrite Hb. split; [reflexivity|].
      inversion Hall as [|? ? Ha Hr]; subst.
      repeat constructor; trivial.
      apply surname_le_trans with a; trivial. now apply surname_gt_le.
    + destruct (IH (b :: r)) as (l' & x & Hb & Hall); [simpl in *; lia|].
      exists (a :: l'), x. rewrite Hb. split; [reflexivity|].
      inversion Hall as [|? ? Ha Hr]; subst.
      repeat constructor; trivial.
      apply surname_le_trans with b; trivial. now apply surname_not_gt_le.
Qed.

(** A pass of [m] comparisons does not reach past position [m]. *)
Lemma bubble_app m : forall pre suf,
  (m < length pre)%nat -> bubble m (pre ++ suf) = bubble m pre ++ suf.
Proof.
  induction m as [|m IH]; intros pre suf Hm.
  - now destruct pre as [|a [|b r]], suf.
  - destruct pre as [|a [|b r]]; simpl in Hm; try lia. simpl.
    destruct (surname_gt a b).
    + change (b :: bubble m ((a :: r) ++ suf) = b :: (bubble m (a :: r) ++ suf)).
      now rewrite IH by (simpl; lia).
    + change (a :: bubble m ((b :: r) ++ suf) = a :: (bubble m (b :: r) ++ suf)).
      now rewrite IH by (simpl; lia).
Qed.

(** *** All passes *)

(** What holds between two passes: the tail already bubbled up is sorted and
    bounds the rest from above. *)
Definition settled (pre suf : list Affiliate.t) : Prop :=
  StronglySorted surname_le suf
  /\ Forall (fun x => Forall (surname_le x) suf) pre.

Lemma settled_pass pre suf k :
  length pre = S k -> settled pre suf ->
  exists pre' x,
    bubble k (pre ++ suf) = pre' ++ x :: suf
    /\ length pre' = k /\ settled pre' (x :: suf).
Proof.
  intros Hk [Hs Hb].
  destruct (bubble_last k pre Hk) as (pre' & x & Hp & Hmax).
  exists pre', x. rewrite bubble_app by lia. rewrite Hp, <- List.app_assoc.
  split; [reflexivity|].
  assert (Hperm : Permutation (pre' ++ [x]) pre)
    by (rewrite <- Hp; apply bubble_perm).
  assert (Hlen : length (pre' ++ [x]) = S k)
    by (rewrite <- Hp, bubble_length; exact Hk).
  rewrite length_app in Hlen. simpl in Hlen.
  split; [lia|].
  rewrite List.Forall_forall in Hb, Hmax.
  assert (Hin : forall y, In y (pre' ++ [x]) -> In y pre)
    by (intros y; apply Permutation_in; exact Hperm).
  split.
  - constructor; trivial. apply Hb, Hin, in_or_app. right. now left.
  - apply List.Forall_forall. intros y Hy.
    assert (Hy' : In y pre) by (apply Hin, in_or_app; now left).
    constructor; [now apply Hmax | now apply Hb].
Qed.

Lemma passes_sorted k : forall pre suf,
  length pre = k -> settled pre suf ->
  StronglySorted surname_le
    (fold_left (fun l m => bubble m l) (countdown k) (pre ++ suf)).
Proof.
  induction k as [|k IH]; intros pre suf Hk Hs.
  - destruct pre; [|discriminate]. apply Hs.
  - rewrite countdown_S. cbn [fold_left].
    destruct (settled_pass pre suf k Hk Hs) as (pre' & x & -> & Hk' & Hs').
    now apply IH.
Qed.

Lemma passes_perm ms : forall l,
  Permutation (fold_left (fun l m => bubble m l) ms l) l.
Proof.
  induction ms as [|m ms IH]; intros l; simpl; [reflexivity|].
  rewrite IH. apply bubble_perm.
Qed.

Lemma passes_stable k ms : forall l,
  with_key k (fold_left (fun l m => bubble m l) ms l) = with_key k l.
Proof.
  induction ms as [|m ms IH]; intros l; simpl; [reflexivity|].
  rewrite IH. apply bubble_stable.
Qed.

(** The sort key, character by character. *)

Lemma in_all_chars c : In c all_chars.
Proof.
  unfold all_chars. rewrite <- (ascii_nat_embedding c).
  apply in_map, in_seq. pose proof (nat_ascii_bounded c). lia.
Qed.

Lemma lower_char_same c : same_letter c (Py.lower_char c) = true.
Proof.
  assert (H : forallb (fun c => same_letter c (Py.lower_char c)) all_chars
              = true) by (vm_compute; reflexivity).
  rewrite forallb_forall in H. apply H, in_all_chars.
Qed.

Lemma lower_char_small c : upper_letter (Py.lower_char c) = false.
Proof.
  assert (H : forallb (fun c => negb (upper_letter (Py.lower_char c)))
                      all_chars = true) by (vm_compute; reflexivity).
  rewrite forallb_forall in H. apply negb_true_iff, H, in_all_chars.
Qed.

Lemma lower_char_fixed c : upper_letter c = false -> Py.lower_char c = c.
Proof.
  assert (H : forallb (fun c => upper_letter c
                                || Ascii.eqb (Py.lower_char c) c)
                      all_chars = true) by (vm_compute; reflexivity).
  rewrite forallb_forall in H. intros E.
  specialize (H c (in_all_chars c)). rewrite E in H.
  now apply Ascii.eqb_eq.
Qed.

Lemma lower_char_eq c d :
  Py.lower_char c = Py.lower_char d <-> same_letter c d = true.
Proof.
  assert (H : forallb (fun c => forallb (fun d =>
                Bool.eqb (Ascii.eqb (Py.lower_char c) (Py.lower_char d))
                         (same_letter c d)) all_chars) all_chars = true)
    by (vm_compute; reflexivity).
  rewrite forallb_forall in H. specialize (H c (in_all_chars c)).
  rewrite forallb_forall in H. specialize (H d (in_all_chars d)).
  apply Bool.eqb_prop in H. rewrite <- H. symmetry. apply Ascii.eqb_eq.
Qed.

Lemma lower_same s : same_ignoring_case s (Py.lower s) = true.
Proof.
  induction s as [|c s IH]; simpl; [reflexivity|].
  now rewrite lower_char_same, IH.
Qed.

Lemma lower_small s : no_upper (Py.lower s) = true.
Proof.
  induction s as [|c s IH]; simpl; [reflexivity|].
  now rewrite lower_char_small, IH.
Qed.

Lemma lower_fixed s : no_upper s = true -> Py.lower s = s.
Proof.
  induction s as [|c s IH]; simpl; [reflexivity|].
  rewrite andb_true_iff, negb_true_iff. intros [Hc Hs].
  now rewrite (lower_char_fixed c Hc), (IH Hs).
Qed.

Lemma lower_eq s t :
  Py.lower s = Py.lower t <-> same_ignoring_case s t = true.
Proof.
  revert t. induction s as [|c s IH]; intros [|d t]; simpl;
    try (split; [discriminate|discriminate]); [tauto|].
  rewrite andb_true_iff, <- lower_char_eq, <- IH.
  split; [intros H; inversion H; auto | intros [-> ->]; reflexivity].
Qed.

(** C5: [listAffiliates] returns (it never reads past the end of the list) a
    permutation of the stored collection, sorted ascending by the surname
    compared in lower case, in which the affiliates of any one key keep their
    stored relative order.  The key is the surname with the case of its
    letters removed: it has no capital letter, it is the surname up to case,
    it is the surname itself when that has no capital letter, and two
    affiliates have the same key exactly when their surnames are equal up to
    case. *)
Theorem listAffiliates_sorted_stable afiliados :
  (exists out,
    listAffiliates afiliados = Some out
    /\ Permutation out afiliados
    /\ StronglySorted surname_le out
    /\ forall k, with_key k out = with_key k afiliados)
  /\ (forall a,
        no_upper (surname_key a) = true
        /\ same_ignoring_case (Affiliate.surnames a) (surname_key a) = true
        /\ (no_upper (Affiliate.surnames a) = true ->
            surname_key a = Affiliate.surnames a))
  /\ (forall a b,
        surname_key a = surname_key b
        <-> same_ignoring_case (Affiliate.surnames a) (Affiliate.surnames b)
            = true).
Proof.
  split; [|split].
  - eexists. split; [apply listAffiliates_bubble|]. split; [|split].
    + apply passes_perm.
    + rewrite <- (app_nil_r afiliados) at 2.
      apply passes_sorted; [reflexivity|].
      split; [constructor|]. apply List.Forall_forall. intros; constructor.
    + intros k. apply passes_stable.
  - intros a. unfold surname_key. split; [apply lower_small|].
    split; [apply lower_same|apply lower_fixed].
  - intros a b. apply lower_eq.
Qed.

(** Capital and small surnames are sorted together: "abad" and "ABAD" share
    a key and keep their stored order, before "Zea"; compared as stored,
    "ABAD" and "Zea" would both precede "abad". *)
Lemma listAffiliates_sorted_stable_witness :
  listAffiliates [zea; abad; abad_mayus] = Some [abad; abad_mayus; zea]
  /\ listAffiliates [zea; abad_mayus; abad] = Some [abad_mayus; abad; zea]
  /\ surname_key abad = surname_key abad_mayus
  /\ surname_key abad = "abad"
  /\ no_upper (surname_key zea) = true
  /\ Py.gt (Affiliate.surnames abad) (Affiliate.surnames zea) = true
  /\ Py.lower "ABCDEFGHIJKLMNOPQRSTUVWXYZ" = "abcdefghijklmnopqrstuvwxyz".
Proof.
  destruct (listAffiliates_sorted_stable [zea; abad; abad_mayus])
    as ((out & E & _ & _ & Hst) & Hkey & Heq).
  split; [reflexivity|]. split; [reflexivity|].
  split; [apply Heq; reflexivity|].
  split; [apply (Hkey abad); reflexivity|].
  split; [apply (Hkey zea)|].
  split; reflexivity.
Defined.

(** ** [_valid_slot] *)

Section Regex.
Import Datetime.

Lemma cls_range lo hi c :
  cls lo hi c = true ->
  (N_of_ascii lo <= N_of_ascii c <= N_of_ascii hi)%N.
Proof.
  unfold cls. rewrite andb_true_iff, !N.leb_le. tauto.
Qed.

Lemma isdigit_range c :
  Py.isdigit c = true -> 0 <= Py.digit_value c <= 9.
Proof.
  unfold Py.isdigit, Py.digit_value. rewrite andb_true_iff, !N.leb_le. lia.
Qed.

Lemma in_one p s v r :
  In (v, r) (one p s) ->
  exists a, s = String a r /\ p a = true /\ v = Py.digit_value a.
Proof.
  destruct s as [|a s]; simpl; [tauto|].
  destruct (p a) eqn:E; simpl; [|tauto].
  intros [H|[]]. inversion H; subst. eauto.
Qed.

Lemma in_two p q s v r :
  In (v, r) (two p q s) ->
  exists a b, s = String a (String b r) /\ p a = true /\ q b = true
              /\ v = 10 * Py.digit_value a + Py.digit_value b.
Proof.
  destruct s as [|a [|b s]]; simpl; try tauto.
  destruct (p a) eqn:Ea, (q b) eqn:Eb; simpl; try tauto.
  intros [H|[]]. inversion H; subst. eauto 6.
Qed.

Ltac digits :=
  repeat match goal with
  | H : cls _ _ _ = true |- _ =>
      apply cls_range in H; unfold Py.digit_value; simpl in H
  | H : Py.isdigit _ = true |- _ => apply isdigit_range in H
  end.

Lemma re_H_range s h r : In (h, r) (re_H s) -> 0 <= h <= 23.
Proof.
  unfold re_H. rewrite !in_app_iff.
  intros [H|[H|H]];
    [apply in_two in H as (a & b & _ & Ha & Hb & ->)
    |apply in_two in H as (a & b & _ & Ha & Hb & ->)
    |apply in_one in H as (a & _ & Ha & ->)];
    digits; unfold Py.digit_value in *; lia.
Qed.

Lemma re_M_range s m r : In (m, r) (re_M s) -> 0 <= m <= 59.
Proof.
  unfold re_M. rewrite !in_app_iff.
  intros [H|H];
    [apply in_two in H as (a & b & _ & Ha & Hb & ->)
    |apply in_one in H as (a & _ & Ha & ->)];
    digits; unfold Py.digit_value in *; lia.
Qed.

Lemma match_time_range s h m r :
  In (h, m, r) (match_time s) -> 0 <= h <= 23 /\ 0 <= m <= 59.
Proof.
  unfold match_time. intros H. apply list_elem_of_In in H.
  apply list_elem_of_bind in H as ([h' s1] & H & H1).
  apply list_elem_of_bind in H as (s2 & H & H2).
  apply list_elem_of_bind in H as ([m' s3] & H & H3).
  apply list_elem_of_singleton in H. inversion H; subst.
  apply list_elem_of_In in H1, H3.
  split; [eapply re_H_range | eapply re_M_range]; eassumption.
Qed.

Lemma strptime_time_range s t :
  strptime_time s = Some t ->
  0 <= hour t <= 23 /\ 0 <= minute t <= 59.
Proof.
  unfold strptime_time.
  destruct (match_time s) as [|[[h m] r] l] eqn:E; [discriminate|].
  destruct r; [|discriminate]. intros H. inversion H; subst. simpl.
  apply (match_time_range s h m ""). rewrite E. now left.
Qed.

Lemma strptime_date_real s d :
  strptime_date s = Some d -> valid_date (year d) (month d) (day d) = true.
Proof.
  unfold strptime_date.
  destruct (match_date s) as [|[[[y m] d'] r] l]; [discriminate|].
  destruct r; [|discriminate].
  destruct (valid_date y m d') eqn:E; [|discriminate].
  intros H. inversion H; subst. exact E.
Qed.

Lemma weekday_range d : 0 <= weekday d <= 6.
Proof.
  unfold weekday.
  pose proof (Z.mod_pos_bound (toordinal d + 6) 7). lia.
Qed.

End Regex.

Lemma valid_slot_parsed date_str time_str fecha hora :
  Datetime.strptime_date date_str = Some fecha ->
  Datetime.strptime_time time_str = Some hora ->
  _valid_slot date_str time_str =
  if (4 <? Datetime.weekday fecha) || (minutes_of hora <? 480)
     || (960 <? minutes_of hora)
     || negb ((Datetime.minute hora =? 0) || (Datetime.minute hora =? 30))
  then out_of_range else ok.
Proof.
  intros Hd Ht. unfold _valid_slot. rewrite Hd, Ht.
  apply strptime_time_range in Ht. unfold minutes_of.
  destruct (4 <? Datetime.weekday fecha); [reflexivity|]. simpl.
  replace (Datetime.time_le opening hora && Datetime.time_le hora closing)
    with (negb ((60 * Datetime.hour hora + Datetime.minute hora <? 480)
                || (960 <? 60 * Datetime.hour hora + Datetime.minute hora))).
  - destruct ((_ <? 480) || (960 <? _)); reflexivity.
  - unfold Datetime.time_le, opening, closing.
    cbn [Datetime.hour Datetime.minute]. apply eq_true_iff_eq.
    rewrite negb_true_iff, orb_false_iff, andb_true_iff, !orb_true_iff,
      !andb_true_iff, !Z.ltb_ge, !Z.ltb_lt, !Z.leb_le, !Z.eqb_eq.
    lia.
Qed.

(** C6 as stated fails: the code has no [invalid_format] result; an impossible
    date is answered with [invalid_data], the code of the blank-field check. *)
Lemma valid_slot_parse_failure_code :
  _valid_slot "31/02/2024" "08:00" <> invalid_format.
Proof. vm_compute. discriminate. Qed.

(** C6, amended: [_valid_slot] returns [invalid_data] when the date does not
    parse as a real dd/mm/yyyy calendar date or the time does not parse as
    HH:MM; when both parse it returns [out_of_range] if the weekday is
    Saturday or Sunday, or the time is outside 08:00..16:00 (inclusive), or
    the minute is neither 0 nor 30; otherwise it returns [ok].  The four
    sample slots give [ok], [out_of_range], [out_of_range] and
    [invalid_data]. *)
Theorem valid_slot_spec date_str time_str :
  ((Datetime.strptime_date date_str = None
    \/ Datetime.strptime_time time_str = None) ->
   _valid_slot date_str time_str = invalid_data)
  /\ (forall fecha hora,
        Datetime.strptime_date date_str = Some fecha ->
        Datetime.strptime_time time_str = Some hora ->
        let weekend :=
          Datetime.weekday fecha = 5 \/ Datetime.weekday fecha = 6 in
        let outside := minutes_of hora < 480 \/ 960 < minutes_of hora in
        let off_grid :=
          Datetime.minute hora <> 0 /\ Datetime.minute hora <> 30 in
        (weekend \/ outside \/ off_grid ->
         _valid_slot date_str time_str = out_of_range)
        /\ (~ (weekend \/ outside \/ off_grid) ->
            _valid_slot date_str time_str = ok))
  /\ _valid_slot "15/03/2024" "08:00" = ok
  /\ _valid_slot "16/03/2024" "08:00" = out_of_range
  /\ _valid_slot "15/03/2024" "08:15" = out_of_range
  /\ _valid_slot "31/02/2024" "08:00" = invalid_data.
Proof.
  split; [|split; [|repeat split; vm_compute; reflexivity]].
  - unfold _valid_slot. intros [->| ->]; [reflexivity|].
    now destruct (Datetime.strptime_date date_str).
  - intros fecha hora Hd Ht. cbv zeta.
    rewrite (valid_slot_parsed _ _ _ _ Hd Ht).
    pose proof (weekday_range fecha) as Hw.
    destruct (_ || _ || _ || _) eqn:E.
    + split; [reflexivity|]. intros Hn. exfalso. apply Hn.
      rewrite !orb_true_iff, negb_true_iff, orb_false_iff, !Z.ltb_lt,
        !Z.eqb_neq in E. lia.
    + split; [|reflexivity]. intros Hc. exfalso.
      rewrite !orb_false_iff, negb_false_iff, orb_true_iff, !Z.ltb_ge,
        !Z.eqb_eq in E. lia.
Qed.

Lemma valid_slot_spec_witness :
  Datetime.strptime_date "18/03/2024" = Some (Datetime.Date 2024 3 18)
  /\ Datetime.strptime_time "16:00" = Some (Datetime.Time 16 0)
  /\ _valid_slot "18/03/2024" "16:00" = ok
  /\ Datetime.strptime_time "7:30" = Some (Datetime.Time 7 30)
  /\ _valid_slot "18/03/2024" "7:30" = out_of_range.
Proof.
  assert (Hd : Datetime.strptime_date "18/03/2024"
               = Some (Datetime.Date 2024 3 18)) by reflexivity.
  assert (Ht : Datetime.strptime_time "16:00" = Some (Datetime.Time 16 0))
    by reflexivity.
  assert (Ht' : Datetime.strptime_time "7:30" = Some (Datetime.Time 7 30))
    by reflexivity.
  split; [exact Hd|]. split; [exact Ht|]. split; [|split; [exact Ht'|]].
  - apply (proj1 (proj2 (valid_slot_spec "18/03/2024" "16:00")) _ _ Hd Ht).
    vm_compute. intros [[H|H]|[[H|H]|[H _]]]; try discriminate H.
    now apply H.
  - apply (proj1 (proj2 (valid_slot_spec "18/03/2024" "7:30")) _ _ Hd Ht').
    right. left. left. reflexivity.
Defined.

(** ** [int] reads back what [str] prints *)

Section IntStr.
Import Decimal.

Lemma uint_value_pos d : forall p,
  uint_value (Z.pos p) d = Z.pos (Pos.of_uint_acc d p).
Proof.
  induction d; intros p; simpl; trivial;
    match goal with
    | |- uint_value ?a _ = Z.pos (Pos.of_uint_acc _ ?q) =>
        replace a with (Z.pos q) by lia; apply IHd
    end.
Qed.

Lemma uint_value_0 d : uint_value 0 d = Z.of_uint d.
Proof.
  unfold Z.of_uint.
  induction d; simpl; trivial; apply uint_value_pos.
Qed.

Lemma int_digits_uint d : forall acc,
  Py.int_digits true acc (NilEmpty.string_of_uint d)
  = Some (uint_value acc d).
Proof.
  induction d; intros acc; simpl; trivial; apply IHd.
Qed.

Lemma int_digits_uint_nonnil d b acc :
  d <> Nil ->
  Py.int_digits b acc (NilEmpty.string_of_uint d) = Some (uint_value acc d).
Proof.
  destruct d; intros H; try congruence; simpl; apply int_digits_uint.
Qed.

Lemma string_of_uint_digits d : digits_only (NilEmpty.string_of_uint d).
Proof. induction d; simpl; auto. Qed.

End IntStr.

Lemma isdigit_not_space c : Py.isdigit c = true -> Py.int_space c = false.
Proof.
  unfold Py.isdigit, Py.int_space.
  rewrite andb_true_iff, !N.leb_le. intros H.
  repeat (apply orb_false_iff; split);
    rewrite ?andb_false_iff, ?N.leb_gt, ?N.eqb_neq; lia.
Qed.

Lemma rstrip_digits s : digits_only s -> Py.int_rstrip s = s.
Proof.
  induction s as [|c s IH]; simpl; trivial.
  intros [Hc Hs]. rewrite (IH Hs), (isdigit_not_space c Hc).
  now destruct s.
Qed.

Lemma strip_digits s :
  digits_only s -> Py.int_rstrip (Py.int_lstrip s) = s.
Proof.
  intros H.
  destruct s as [|c s]; [reflexivity|].
  cbn [Py.int_lstrip]. rewrite (isdigit_not_space c) by apply H.
  now apply rstrip_digits.
Qed.

Lemma strip_minus_digits s :
  s <> "" -> digits_only s ->
  Py.int_rstrip (Py.int_lstrip (String "-" s)) = String "-" s.
Proof.
  intros Hne H. cbn [Py.int_lstrip].
  replace (Py.int_space "-") with false by reflexivity.
  cbn [Py.int_rstrip]. rewrite (rstrip_digits s H).
  destruct s; [congruence|reflexivity].
Qed.

(** [int] does not skip the separators U+001C..U+001F, which [strip] removes;
    it skips the other white space, at both ends only, and takes one sign and
    single underscores between digits. *)
Lemma int_white_space :
  Py.strip (String (ascii_of_N 28) "5") = "5"
  /\ Py.int (String (ascii_of_N 28) "5") = None
  /\ Py.int (String (ascii_of_N 31) "5") = None
  /\ Py.int (String "5" (String (ascii_of_N 30) "")) = None
  /\ Py.int (String (ascii_of_N 160) " 5 ") = Some 5
  /\ Py.int (String (ascii_of_N 133) "+5") = Some 5
  /\ Py.int (String (ascii_of_N 9) (String "7" (String (ascii_of_N 10) "")))
     = Some 7
  /\ Py.int " -1_0 " = Some (-10)
  /\ Py.int "1__0" = None /\ Py.int "_1" = None /\ Py.int "1_" = None
  /\ Py.int "+ 5" = None /\ Py.int "" = None.
Proof. repeat split; reflexivity. Qed.

Lemma string_of_uint_nonempty d :
  d <> Decimal.Nil -> NilEmpty.string_of_uint d <> "".
Proof. destruct d; simpl; congruence. Qed.

Lemma int_digit_string s :
  s <> "" -> digits_only s -> Py.int s = Py.int_digits false 0 s.
Proof.
  intros Hne H. unfold Py.int. rewrite (strip_digits s H).
  destruct s as [|c r]; [congruence|].
  destruct H as [Hc _].
  destruct (Ascii.eqb_spec c "+") as [->|_]; [discriminate|].
  destruct (Ascii.eqb_spec c "-") as [->|_]; [discriminate|].
  reflexivity.
Qed.

Lemma int_str n : Py.int (Py.str n) = Some n.
Proof.
  unfold Py.str. destruct n as [|p|p]; [reflexivity| |].
  - cbn [Z.to_int NilEmpty.string_of_int].
    pose proof (Unsigned.to_uint_nonnil p) as Hn.
    rewrite int_digit_string
      by (auto using string_of_uint_nonempty, string_of_uint_digits).
    rewrite int_digits_uint_nonnil by assumption.
    rewrite uint_value_0. f_equal.
    unfold Z.of_uint. now rewrite DecimalPos.Unsigned.of_to.
  - cbn [Z.to_int NilEmpty.string_of_int].
    pose proof (Unsigned.to_uint_nonnil p) as Hn.
    unfold Py.int.
    rewrite strip_minus_digits
      by (auto using string_of_uint_nonempty, string_of_uint_digits).
    replace (Ascii.eqb "-" "+") with false by reflexivity.
    replace (Ascii.eqb "-" "-") with true by reflexivity.
    rewrite int_digits_uint_nonnil by assumption.
    rewrite uint_value_0. cbn [mbind option_bind]. f_equal.
    unfold Z.of_uint. now rewrite DecimalPos.Unsigned.of_to.
Qed.

(** ** Authentication and the doctor check *)

Lemma not_authenticated_false users name password :
  not_authenticated (findUser users name) password = false
  <-> authenticated users name password.
Proof.
  unfold not_authenticated, authenticated.
  destruct (findUser users name) as [u|].
  - rewrite orb_false_iff, !negb_false_iff, bool_decide_eq_true.
    split.
    + intros [Hp Hs]. exists u. repeat split; trivial.
      destruct (User.session u) as [[|]|]; simpl in Hs; congruence.
    + intros (u' & Hu & Hp & Hs). inversion Hu; subst u'.
      rewrite Hs. auto.
  - split; [discriminate|]. intros (u & Hu & _). discriminate.
Qed.

Lemma not_authenticated_true users name password :
  not_authenticated (findUser users name) password = true
  <-> login_fails users name password.
Proof.
  unfold not_authenticated, login_fails.
  destruct (findUser users name) as [u|].
  - rewrite orb_true_iff, !negb_true_iff, bool_decide_eq_false.
    split.
    + intros H. right. exists u. split; trivial.
      destruct H as [H|H]; [now left|right].
      destruct (User.session u) as [[|]|]; simpl in H; congruence.
    + intros [H|(u' & Hu & H)]; [discriminate|]. inversion Hu; subst u'.
      destruct H as [H|H]; [now left|right].
      destruct (User.session u) as [[|]|]; simpl; congruence.
  - split; [now left | reflexivity].
Qed.

Lemma login_fails_iff users name password :
  login_fails users name password <-> ~ authenticated users name password.
Proof.
  rewrite <- not_authenticated_true, <- not_authenticated_false.
  destruct (not_authenticated _ _); split; congruence.
Qed.

Lemma doctor_check_false users name :
  match findUser users name with
  | None => true
  | Some d => negb (bool_decide (User.role d = Some "doctor"))
  end = false <-> is_doctor users name.
Proof.
  unfold is_doctor. destruct (findUser users name) as [u|].
  - rewrite negb_false_iff, bool_decide_eq_true. split; [eauto|].
    intros (u' & Hu & H). now inversion Hu; subst.
  - split; [discriminate|]. intros (u & Hu & _). discriminate.
Qed.



(** ** Collisions *)

Lemma collides_iff dn ds ts c :
  collides dn ds ts c = true <-> is_scheduled c = true /\ slot c = (dn, ds, ts).
Proof.
  unfold collides, is_scheduled, slot.
  rewrite !andb_true_iff, !String.eqb_eq. intuition congruence.
Qed.

Lemma collision_iff dn ds ts citas :
  existsb (collides dn ds ts) citas = true
  <-> In (dn, ds, ts) (scheduled_slots citas).
Proof.
  unfold scheduled_slots. rewrite existsb_exists, in_map_iff.
  split; intros (c & H1 & H2); exists c.
  - apply collides_iff in H2. rewrite filter_In. tauto.
  - apply filter_In in H2. rewrite collides_iff. tauto.
Qed.

Lemma scheduled_slots_app l1 l2 :
  scheduled_slots (l1 ++ l2) = scheduled_slots l1 ++ scheduled_slots l2.
Proof.
  unfold scheduled_slots. now rewrite List.filter_app, map_app.
Qed.

(** ** [_next_id] *)

Lemma mapO_Some {A B} (f : A -> option B) l vs :
  mapO f l = Some vs <-> Forall2 (fun a v => f a = Some v) l vs.
Proof.
  revert vs. induction l as [|a l IH]; intros vs; simpl.
  - split; [intros H; inversion H; constructor | intros H; now inversion H].
  - destruct (f a) as [b|] eqn:Ea; simpl.
    + destruct (mapO f l) as [bs|] eqn:El; simpl.
      * split.
        -- intros H. inversion H; subst. constructor; trivial. now apply IH.
        -- intros H. inversion H as [|? v ? vs' Hv Hvs]; subst.
           apply IH in Hvs. congruence.
      * split; [discriminate|].
        intros H. inversion H as [|? v ? vs' Hv Hvs]; subst.
        apply IH in Hvs. discriminate.
    + split; [discriminate|].
      intros H. inversion H; subst. congruence.
Qed.

Lemma ids_numeric_values citas :
  ids_numeric citas <-> exists vs, id_values citas vs.
Proof.
  unfold ids_numeric, id_values. induction citas as [|c citas IH].
  - split; [exists []; constructor | constructor].
  - split.
    + intros H. inversion H as [|? ? Hc Hr]; subst.
      apply IH in Hr as [vs Hvs].
      destruct (Py.int (Appointment.id c)) as [v|] eqn:E; [|congruence].
      exists (v :: vs). now constructor.
    + intros [vs H]. inversion H as [|? v ? vs' Hv Hvs]; subst.
      constructor; [congruence|]. apply IH. eauto.
Qed.

Lemma next_id_inv citas s :
  _next_id citas = Some s ->
  exists n, s = Py.str n /\ next_number citas n /\ ids_numeric citas.
Proof.
  unfold _next_id. destruct citas as [|c citas].
  - intros H. inversion H. exists 1. repeat split. constructor.
  - destruct (mapO _ (c :: citas)) as [vs|] eqn:E; [|discriminate].
    apply mapO_Some in E. cbn [mbind option_bind].
    destruct vs as [|x l]; [discriminate|].
    intros H. inversion H. exists (max_list x l + 1). split; [reflexivity|].
    split; [|apply ids_numeric_values; eauto].
    exists (x :: l). split; [exact E|].
    replace (max_list x l + 1 - 1) with (max_list x l) by lia.
    apply max_list_spec.
Qed.

Lemma next_id_numeric citas :
  ids_numeric citas ->
  exists n, _next_id citas = Some (Py.str n) /\ next_number citas n.
Proof.
  intros H. destruct (_next_id citas) as [s|] eqn:E.
  - apply next_id_inv in E as (n & -> & Hn & _). eauto.
  - exfalso. apply ids_numeric_values in H as [vs Hvs].
    unfold _next_id in E. destruct citas as [|c citas]; [discriminate|].
    apply mapO_Some in Hvs. rewrite Hvs in E. cbn [mbind option_bind] in E.
    destruct vs; [|discriminate].
    apply mapO_Some in Hvs. inversion Hvs.
Qed.

(** The next id is not the id of any stored appointment. *)
Lemma next_number_fresh citas n c :
  next_number citas n -> In c citas -> Appointment.id c <> Py.str n.
Proof.
  intros Hn Hin Heq. destruct citas as [|c0 citas]; [contradiction|].
  destruct Hn as (vs & Hvs & _ & Hmax).
  assert (Hv : In n vs).
  { unfold id_values in Hvs. clear Hmax.
    induction Hvs as [|c1 v l vs' Hv Hvs IH]; [contradiction|].
    destruct Hin as [->|Hin].
    - rewrite Heq, int_str in Hv. inversion Hv. now left.
    - right. now apply IH. }
  rewrite List.Forall_forall in Hmax. apply Hmax in Hv. lia.
Qed.

Lemma ids_numeric_app citas c :
  ids_numeric citas -> Py.int (Appointment.id c) <> None ->
  ids_numeric (citas ++ [c]).
Proof.
  intros H Hc. apply Forall_app. split; [exact H|]. now constructor.
Qed.

(** ** [scheduleAppointment], branch by branch *)





Lemma schedule_passes users citas pn pw dn ds ts :
  passes users pn pw dn ds ts ->
  scheduleAppointment users citas pn pw dn ds ts =
  if existsb (collides dn ds ts) citas then Some (slot_taken, citas)
  else new_id ← _next_id citas;
       Some (ok, citas ++ [Appointment.Make new_id pn dn ds ts "scheduled"]).
Proof.
  intros (H & Hd & Hp & Hs).
  apply List.Forall_Exists_neg, existsb_blank_false in H.
  apply doctor_check_false in Hd. apply not_authenticated_false in Hp.
  unfold scheduleAppointment. cbv zeta. rewrite H, Hd, Hp, Hs.
  reflexivity.
Qed.

Lemma schedule_taken users citas pn pw dn ds ts :
  passes users pn pw dn ds ts ->
  In (dn, ds, ts) (scheduled_slots citas) ->
  scheduleAppointment users citas pn pw dn ds ts = Some (slot_taken, citas).
Proof.
  intros Hp Hin. rewrite schedule_passes by assumption.
  apply collision_iff in Hin. now rewrite Hin.
Qed.

Lemma schedule_free users citas pn pw dn ds ts :
  passes users pn pw dn ds ts ->
  ~ In (dn, ds, ts) (scheduled_slots citas) ->
  ids_numeric citas ->
  exists n,
    next_number citas n
    /\ scheduleAppointment users citas pn pw dn ds ts
       = Some (ok, citas ++ [Appointment.Make (Py.str n) pn dn ds ts "scheduled"]).
Proof.
  intros Hp Hin Hnum. rewrite schedule_passes by assumption.
  rewrite <- collision_iff in Hin.
  destruct (existsb _ citas); [congruence|].
  destruct (next_id_numeric citas Hnum) as (n & -> & Hn).
  exists n. split; [exact Hn | reflexivity].
Qed.

(** What a call that answered [ok] has checked and written. *)
Lemma schedule_ok_inv users citas pn pw dn ds ts citas' :
  scheduleAppointment users citas pn pw dn ds ts = Some (ok, citas') ->
  passes users pn pw dn ds ts
  /\ ~ In (dn, ds, ts) (scheduled_slots citas)
  /\ ids_numeric citas
  /\ exists n, next_number citas n
       /\ citas' = citas ++ [Appointment.Make (Py.str n) pn dn ds ts "scheduled"].
Proof.
  unfold scheduleAppointment. cbv zeta.
  destruct (existsb Py.blank _) eqn:Eb; [discriminate|].
  destruct (match findUser users dn with None => true | Some d => _ end) eqn:Ed;
    [discriminate|].
  destruct (not_authenticated _ pw) eqn:Ep; [discriminate|].
  destruct (negb (String.eqb (_valid_slot ds ts) ok)) eqn:Es.
  { intros H. inversion H as [[H1 H2]].
    rewrite H1 in Es. discriminate. }
  destruct (existsb (collides dn ds ts) citas) eqn:Ec; [discriminate|].
  destruct (_next_id citas) as [s|] eqn:En; [|discriminate].
  cbn [mbind option_bind]. intros H. inversion H; subst.
  apply next_id_inv in En as (n & -> & Hn & Hnum).
  apply existsb_blank_false, List.Forall_Exists_neg in Eb.
  apply doctor_check_false in Ed. apply not_authenticated_false in Ep.
  apply negb_false_iff, String.eqb_eq in Es.
  rewrite <- collision_iff. unfold passes.
  repeat split; trivial; [congruence|]. eauto.
Qed.

(** Whatever the answer, the collection is either untouched or extended by
    one appointment that is scheduled in a free slot under the next id. *)
Lemma schedule_store users citas pn pw dn ds ts r citas' :
  scheduleAppointment users citas pn pw dn ds ts = Some (r, citas') ->
  citas' = citas
  \/ (r = ok /\ ~ In (dn, ds, ts) (scheduled_slots citas)
      /\ exists n, next_number citas n
           /\ citas' = citas ++ [Appointment.Make (Py.str n) pn dn ds ts "scheduled"]).
Proof.
  unfold scheduleAppointment. cbv zeta.
  destruct (existsb Py.blank _); [intros H; inversion H; now left|].
  destruct (match findUser users dn with None => true | Some d => _ end);
    [intros H; inversion H; now left|].
  destruct (not_authenticated _ pw); [intros H; inversion H; now left|].
  destruct (negb _); [intros H; inversion H; now left|].
  destruct (existsb (collides dn ds ts) citas) eqn:Ec;
    [intros H; inversion H; now left|].
  destruct (_next_id citas) as [s|] eqn:En; [|discriminate].
  cbn [mbind option_bind]. intros H. inversion H; subst. right.
  apply next_id_inv in En as (n & -> & Hn & _).
  rewrite <- collision_iff. repeat split; [congruence|eauto].
Qed.

(** ** [cancelAppointment] *)

Lemma cancellable_iff aid pn c :
  cancellable aid pn c = true <-> cancel_target aid pn c.
Proof.
  unfold cancellable, cancel_target.
  rewrite !andb_true_iff, !String.eqb_eq. tauto.
Qed.

Lemma cancel_loop_None aid pn citas :
  cancel_loop aid pn citas = None <-> ~ Exists (cancel_target aid pn) citas.
Proof.
  induction citas as [|c citas IH]; simpl.
  - split; [intros _ H; inversion H | reflexivity].
  - destruct (cancellable aid pn c) eqn:E.
    + apply cancellable_iff in E. split; [discriminate|].
      intros H. exfalso. apply H. now left.
    + destruct (cancel_loop aid pn citas) as [l|]; simpl.
      * split; [discriminate|]. intros H. exfalso.
        destruct IH as [_ IH]. assert (Hn : Some l = None); [|discriminate].
        apply IH. intros Hex. apply H. now right.
      * split; [|reflexivity]. intros _ H.
        inversion H as [? ? Hc|? ? Hr]; subst.
        -- apply cancellable_iff in Hc. congruence.
        -- now apply IH.
Qed.

Lemma cancel_loop_Some aid pn citas citas' :
  cancel_loop aid pn citas = Some citas' ->
  exists l1 c l2,
    citas = l1 ++ c :: l2 /\ cancel_target aid pn c
    /\ Forall (fun x => ~ cancel_target aid pn x) l1
    /\ citas' = l1 ++ Appointment.set_status c "cancelled" :: l2.
Proof.
  revert citas'. induction citas as [|c citas IH]; intros citas'; simpl;
    [discriminate|].
  destruct (cancellable aid pn c) eqn:E.
  - intros H. inversion H; subst. apply cancellable_iff in E.
    exists [], c, citas. repeat split; trivial; apply E.
  - destruct (cancel_loop aid pn citas) as [l|]; [|discriminate].
    cbn [mbind option_bind]. intros H. inversion H; subst.
    destruct (IH l eq_refl) as (l1 & c' & l2 & -> & Ht & Hl1 & ->).
    exists (c :: l1), c', l2. repeat split; trivial; try apply Ht.
    constructor; trivial. rewrite <- cancellable_iff. congruence.
Qed.

(** The collection after a cancel request: untouched, or with the status of
    the first target flipped. *)
Lemma cancel_store users citas pn pw aid :
  snd (cancelAppointment users citas pn pw aid) = citas
  \/ exists l1 c l2,
       citas = l1 ++ c :: l2 /\ cancel_target (str_id aid) pn c
       /\ snd (cancelAppointment users citas pn pw aid)
          = l1 ++ Appointment.set_status c "cancelled" :: l2.
Proof.
  unfold cancelAppointment.
  destruct (not_authenticated _ pw); [now left|].
  destruct (cancel_loop _ pn citas) as [l|] eqn:E; [|now left].
  apply cancel_loop_Some in E as (l1 & c & l2 & H1 & H2 & _ & H3).
  right. exists l1, c, l2. auto.
Qed.

Lemma scheduled_slots_cancelled l1 c l2 :
  Appointment.status c = "scheduled" ->
  scheduled_slots (l1 ++ c :: l2)
  = scheduled_slots l1 ++ slot c :: scheduled_slots l2
  /\ scheduled_slots (l1 ++ Appointment.set_status c "cancelled" :: l2)
     = scheduled_slots l1 ++ scheduled_slots l2.
Proof.
  intros Hc. rewrite !scheduled_slots_app. unfold scheduled_slots.
  cbn [List.filter]. unfold is_scheduled at 2 5. simpl. rewrite Hc.
  split; reflexivity.
Qed.

(** ** Invariants of the appointment collection *)

Lemma slot_invariant_schedule users citas pn pw dn ds ts r citas' :
  slot_invariant citas ->
  scheduleAppointment users citas pn pw dn ds ts = Some (r, citas') ->
  slot_invariant citas'.
Proof.
  intros Hinv H. apply schedule_store in H as [->|(_ & Hfree & n & _ & ->)];
    trivial.
  unfold slot_invariant in *. rewrite scheduled_slots_app.
  apply NoDup_app. repeat split; trivial.
  - intros x Hx Hx'. apply list_elem_of_In in Hx.
    apply list_elem_of_singleton in Hx'. subst. contradiction.
  - apply NoDup_singleton.
Qed.

Lemma slot_invariant_cancel users citas pn pw aid :
  slot_invariant citas ->
  slot_invariant (snd (cancelAppointment users citas pn pw aid)).
Proof.
  intros Hinv.
  destruct (cancel_store users citas pn pw aid)
    as [->|(l1 & c & l2 & -> & (_ & _ & Hc) & ->)]; trivial.
  unfold slot_invariant in *.
  destruct (scheduled_slots_cancelled l1 c l2 Hc) as [E1 E2].
  rewrite E1 in Hinv. rewrite E2.
  apply NoDup_ListNoDup. apply NoDup_ListNoDup in Hinv.
  eapply List.NoDup_remove_1. exact Hinv.
Qed.

Lemma ids_numeric_schedule users citas pn pw dn ds ts r citas' :
  ids_numeric citas ->
  scheduleAppointment users citas pn pw dn ds ts = Some (r, citas') ->
  ids_numeric citas'.
Proof.
  intros Hnum H. apply schedule_store in H as [->|(_ & _ & n & _ & ->)];
    trivial.
  apply ids_numeric_app; trivial. simpl. rewrite int_str. discriminate.
Qed.

Lemma ids_numeric_cancel users citas pn pw aid :
  ids_numeric citas ->
  ids_numeric (snd (cancelAppointment users citas pn pw aid)).
Proof.
  intros Hnum.
  destruct (cancel_store users citas pn pw aid)
    as [->|(l1 & c & l2 & -> & _ & ->)]; trivial.
  unfold ids_numeric in *. rewrite Forall_app in *.
  destruct Hnum as [H1 H2]. split; trivial.
  inversion H2; subst. now constructor.
Qed.

(** Every collection built from the empty store satisfies both. *)
Lemma booked_invariants citas :
  booked citas -> slot_invariant citas /\ ids_numeric citas.
Proof.
  induction 1 as [|users citas pn pw dn ds ts r citas' _ [IH1 IH2] H
                  |users citas pn pw aid _ [IH1 IH2]].
  - split; constructor.
  - split; [eapply slot_invariant_schedule | eapply ids_numeric_schedule];
      eassumption.
  - split; [now apply slot_invariant_cancel | now apply ids_numeric_cancel].
Qed.

(** ** The claims about [scheduleAppointment] and [cancelAppointment] *)

Lemma not_blank5 a b c d e :
  ~ Exists whitespace_only [a; b; c; d; e]
  <-> ~ whitespace_only a /\ ~ whitespace_only b /\ ~ whitespace_only c
      /\ ~ whitespace_only d /\ ~ whitespace_only e.
Proof.
  rewrite !List.Exists_cons, List.Exists_nil. tauto.
Qed.

Lemma cancel_loop_last aid pn citas c :
  Forall (fun x => Appointment.id x <> aid) citas ->
  cancel_target aid pn c ->
  cancel_loop aid pn (citas ++ [c])
  = Some (citas ++ [Appointment.set_status c "cancelled"]).
Proof.
  intros Hfresh Hc. induction Hfresh as [|x l Hx Hl IH]; simpl.
  - apply cancellable_iff in Hc. now rewrite Hc.
  - destruct (cancellable aid pn x) eqn:E.
    + apply cancellable_iff in E. destruct E. contradiction.
    + now rewrite IH.
Qed.





(** C7: for an authenticated patient, [cancelAppointment] returns [not_found]
    exactly when no appointment has the given id, that patient and status
    "scheduled" (so an appointment already cancelled, or one of another
    patient, gives [not_found]); every [not_found] leaves the collection
    unchanged; and when there is such an appointment, the first one is
    replaced, in place, by an appointment whose status is "cancelled" and
    whose other fields are the same, and the result is [ok]. *)
Theorem cancelAppointment_not_found users citas pn pw aid :
  authenticated users pn pw ->
  let r := cancelAppointment users citas pn pw aid in
  let target := cancel_target (str_id aid) pn in
  (fst r = not_found <-> ~ Exists target citas)
  /\ (fst r = not_found -> snd r = citas)
  /\ (Exists target citas ->
      exists l1 c c' l2,
        citas = l1 ++ c :: l2 /\ target c
        /\ Forall (fun x => ~ target x) l1
        /\ r = (ok, l1 ++ c' :: l2)
        /\ Appointment.status c' = "cancelled"
        /\ Appointment.id c' = Appointment.id c
        /\ Appointment.patient c' = Appointment.patient c
        /\ Appointment.doctor c' = Appointment.doctor c
        /\ Appointment.date c' = Appointment.date c
        /\ Appointment.time c' = Appointment.time c)
  /\ ((forall c, In c citas -> Appointment.id c = str_id aid ->
                 Appointment.status c <> "scheduled"
                 \/ Appointment.patient c <> pn) ->
      r = (not_found, citas)).
Proof.
  intros Hauth. cbv zeta. apply not_authenticated_false in Hauth.
  unfold cancelAppointment. rewrite Hauth.
  destruct (cancel_loop (str_id aid) pn citas) as [l|] eqn:E.
  - pose proof E as E'.
    apply cancel_loop_Some in E' as (l1 & c & l2 & -> & Hc & Hl1 & ->).
    assert (Hex : Exists (cancel_target (str_id aid) pn) (l1 ++ c :: l2)).
    { apply List.Exists_exists. exists c. split; trivial.
      apply in_or_app. right. now left. }
    split; [|split; [|split]].
    + split; [discriminate|]. intros H. contradiction.
    + discriminate.
    + intros _. exists l1, c, (Appointment.set_status c "cancelled"), l2.
      repeat split; trivial; apply Hc.
    + intros H. exfalso.
      destruct (H c) as [Hs|Hp].
      * apply in_or_app. right. now left.
      * apply Hc.
      * apply Hs, Hc.
      * apply Hp, Hc.
  - pose proof E as E'. apply cancel_loop_None in E'.
    repeat split; trivial.
    + intros H. contradiction.
Qed.

Lemma cancelAppointment_not_found_witness :
  authenticated usuarios "lola" "abc"
  /\ cancelAppointment usuarios agenda "lola" "abc" (JStr "2")
     = (not_found, agenda)
  /\ cancelAppointment usuarios agenda "lola" "abc" (JInt 5)
     = (not_found, agenda)
  /\ Exists (cancel_target "1" "lola") agenda
  /\ (exists l1 c c' l2,
        agenda = l1 ++ c :: l2
        /\ cancelAppointment usuarios agenda "lola" "abc" (JInt 1)
           = (ok, l1 ++ c' :: l2)
        /\ Appointment.id c' = "1"
        /\ Appointment.status c' = "cancelled")
  /\ map Appointment.status
       (snd (cancelAppointment usuarios agenda "lola" "abc" (JInt 1)))
     = ["cancelled"; "cancelled"; "scheduled"].
Proof.
  assert (H : authenticated usuarios "lola" "abc").
  { exists (User.Make "lola" (Some "abc") (Some "patient") (Some true)).
    repeat split; reflexivity. }
  assert (Hex : Exists (cancel_target "1" "lola") agenda).
  { apply List.Exists_cons_hd. repeat split. }
  split; [exact H|]. split; [|split; [|split; [exact Hex|split]]].
  - apply (cancelAppointment_not_found usuarios agenda "lola" "abc" (JStr "2") H).
    intros c [<-|[<-|[<-|[]]]]; simpl; intros E; try discriminate.
    left. discriminate.
  - apply (cancelAppointment_not_found usuarios agenda "lola" "abc" (JInt 5) H).
    intros c [<-|[<-|[<-|[]]]]; simpl; intros E; try discriminate.
    right. discriminate.
  - destruct (proj1 (proj2 (proj2 (cancelAppointment_not_found usuarios agenda
                                     "lola" "abc" (JInt 1) H))) Hex)
      as (l1 & c & c' & l2 & Hd & (Hid & _) & _ & Hr & Hs & Hi & _).
    exists l1, c, c', l2. repeat split; trivial. now rewrite Hi.
  - reflexivity.
Defined.

(** C1: the collision test of [scheduleAppointment] compares the date and
    time strings as they were typed, while [_valid_slot] accepts more than
    one spelling of a date and of a time.  With doctor ruiz holding a
    scheduled appointment stored as "11/03/2024", "09:00", a request for ruiz
    at "11/3/2024", "9:00" names the same day and the same time, is not
    answered [slot_taken] but [ok], and the store then has two scheduled
    appointments of ruiz at 9:00 on 11 March 2024: the invariant of one
    scheduled appointment per doctor, date and time holds before the call and
    not after it. *)
Theorem schedule_same_instant_twice :
  let nueva :=
    Appointment.Make "6" "pepe" "ruiz" "11/3/2024" "9:00" "scheduled" in
  let vieja :=
    Appointment.Make "1" "lola" "ruiz" "11/03/2024" "09:00" "scheduled" in
  instant_invariant agenda
  /\ slot_invariant agenda
  /\ In vieja agenda
  /\ scheduleAppointment usuarios agenda "pepe" "clave" "ruiz"
                         "11/3/2024" "9:00"
     = Some (ok, agenda ++ [nueva])
  /\ instant vieja
     = Some ("ruiz", Datetime.Date 2024 3 11, Datetime.Time 9 0)
  /\ instant nueva = instant vieja
  /\ is_scheduled vieja = true /\ is_scheduled nueva = true
  /\ slot_invariant (agenda ++ [nueva])
  /\ ~ instant_invariant (agenda ++ [nueva]).
Proof.
  cbv zeta.
  split.
  { unfold instant_invariant.
    change (NoDup [Some ("ruiz", Datetime.Date 2024 3 11, Datetime.Time 9 0);
                   Some ("ruiz", Datetime.Date 2024 3 13, Datetime.Time 8 0)]).
    apply NoDup_cons_2; [|apply NoDup_cons_2; [|apply NoDup_nil_2]].
    - intros H. inversion H as [|? ? ? H']; subst. inversion H'.
    - intros H. inversion H. }
  split.
  { unfold slot_invariant. refine (bool_decide_unpack _ _).
    vm_compute. exact I. }
  split; [now left|].
  split; [reflexivity|].
  split; [reflexivity|].
  split; [reflexivity|].
  split; [reflexivity|].
  split; [reflexivity|].
  split.
  { unfold slot_invariant. refine (bool_decide_unpack _ _).
    vm_compute. exact I. }
  unfold instant_invariant. intros H.
  assert (E : scheduled_instants
                (agenda ++ [Appointment.Make "6" "pepe" "ruiz" "11/3/2024"
                                             "9:00" "scheduled"])
              = [Some ("ruiz", Datetime.Date 2024 3 11, Datetime.Time 9 0);
                 Some ("ruiz", Datetime.Date 2024 3 13, Datetime.Time 8 0);
                 Some ("ruiz", Datetime.Date 2024 3 11, Datetime.Time 9 0)])
    by reflexivity.
  rewrite E in H. apply NoDup_cons_1_1 in H. apply H.
  constructor. constructor.
Qed.





(** * Further properties of the two modules *)

(** ** [searchById] and [registerAffiliate] *)

Lemma searchById_not_stored afiliados i :
  searchById afiliados i = None <-> ~ In i (map Affiliate.id afiliados).
Proof.
  unfold searchById. induction afiliados as [|af l IH]; simpl; [tauto|].
  destruct (String.eqb_spec (Affiliate.id af) i) as [E|E].
  - split; [discriminate|]. intros H. exfalso. apply H. now left.
  - rewrite IH. tauto.
Qed.

Lemma searchById_found afiliados i af :
  searchById afiliados i = Some af -> In af afiliados /\ Affiliate.id af = i.
Proof.
  unfold searchById. intros H. apply find_some in H as [H1 H2].
  apply String.eqb_eq in H2. auto.
Qed.

Lemma searchById_app_l afiliados l i af :
  searchById afiliados i = Some af -> searchById (afiliados ++ l) i = Some af.
Proof.
  unfold searchById. induction afiliados as [|x r IH]; simpl; [discriminate|].
  destruct (String.eqb (Affiliate.id x) i); auto.
Qed.

Lemma searchById_app_r afiliados l i :
  searchById afiliados i = None ->
  searchById (afiliados ++ l) i = searchById l i.
Proof.
  unfold searchById. induction afiliados as [|x r IH]; simpl; trivial.
  destruct (String.eqb (Affiliate.id x) i); [discriminate|auto].
Qed.

(** What a call that answered [ok] has checked and written. *)
Lemma registerAffiliate_ok_inv afiliados i n a b p g e afiliados' :
  registerAffiliate afiliados i n a b p g e = (ok, afiliados') ->
  valid_fields i n a b p g e
  /\ ~ In i (map Affiliate.id afiliados)
  /\ afiliados' = afiliados ++ [Affiliate.Make i n a b p g e].
Proof.
  destruct (valid_fields_dec i n a b p g e) as [Hv|Hv].
  - rewrite registerAffiliate_valid by assumption.
    destruct (existsb _ afiliados) eqn:E; [discriminate|].
    intros H. inversion H. split; [exact Hv|]. split; [|reflexivity].
    rewrite <- existsb_id_iff. congruence.
  - intros H. exfalso. unfold registerAffiliate in H.
    destruct (existsb Py.blank _) eqn:Eb; [discriminate|].
    destruct (convertir_fecha b) eqn:Ed; [|discriminate].
    destruct (plan_valido p) eqn:Ep, (genero_valido g) eqn:Eg,
      (correo_valido e) eqn:Ee; try discriminate.
    apply Hv. apply valid_fieldsb_sound. unfold valid_fieldsb.
    now rewrite Eb, Ed, Ep, Eg, Ee.
Qed.

(** The answer of [registerAffiliate] is one of four codes. *)
Lemma registerAffiliate_codes afiliados i n a b p g e :
  In (fst (registerAffiliate afiliados i n a b p g e))
     [ok; invalid_data; invalid_date_format; id_already_exists].
Proof.
  unfold registerAffiliate.
  destruct (existsb Py.blank _); [simpl; auto|].
  destruct (convertir_fecha b); [|simpl; auto].
  destruct (negb _ || negb _ || negb _); [simpl; auto|].
  destruct (existsb _ afiliados); simpl; auto.
Qed.

Lemma registerAffiliate_not_ok afiliados i n a b p g e :
  fst (registerAffiliate afiliados i n a b p g e) <> ok ->
  snd (registerAffiliate afiliados i n a b p g e) = afiliados.
Proof.
  unfold registerAffiliate.
  destruct (existsb Py.blank _); [reflexivity|].
  destruct (convertir_fecha b); [|reflexivity].
  destruct (negb _ || negb _ || negb _); [reflexivity|].
  destruct (existsb _ afiliados); [reflexivity|].
  simpl. congruence.
Qed.

Lemma registered_well_formed afiliados :
  registered afiliados -> Forall well_formed afiliados.
Proof.
  induction 1 as [|afiliados i n a b p g e _ IH]; [constructor|].
  destruct (registerAffiliate afiliados i n a b p g e) as [r l] eqn:E.
  destruct (string_dec r ok) as [->|Hr].
  - apply registerAffiliate_ok_inv in E as (Hv & _ & ->). simpl.
    apply Forall_app. split; trivial. constructor; [exact Hv|constructor].
  - replace l with (snd (registerAffiliate afiliados i n a b p g e))
      by now rewrite E.
    rewrite registerAffiliate_not_ok; trivial. now rewrite E.
Qed.

(** X1: in a collection without repeated ids, [searchById] returns an
    affiliate exactly when it is stored under that id, and returns nothing
    exactly when no stored affiliate has the id. *)
Theorem searchById_unique afiliados i :
  unique_ids afiliados ->
  (forall af, searchById afiliados i = Some af
              <-> In af afiliados /\ Affiliate.id af = i)
  /\ (searchById afiliados i = None <-> ~ In i (map Affiliate.id afiliados)).
Proof.
  intros Hu. split; [|apply searchById_not_stored].
  intros af. split; [apply searchById_found|].
  intros [Hin <-]. unfold unique_ids in Hu.
  induction afiliados as [|x l IH]; [contradiction|].
  simpl in Hu. apply NoDup_cons in Hu as [Hx Hl].
  unfold searchById. simpl.
  destruct (String.eqb_spec (Affiliate.id x) (Affiliate.id af)) as [E|E].
  - destruct Hin as [->|Hin]; trivial. exfalso. apply Hx.
    rewrite E. apply list_elem_of_In, in_map. exact Hin.
  - destruct Hin as [->|Hin]; [congruence|]. now apply IH.
Qed.

Lemma searchById_unique_witness :
  unique_ids [ana; zoe; bob]
  /\ searchById [ana; zoe; bob] "3030" = Some bob
  /\ searchById [ana; zoe; bob] "4040" = None.
Proof.
  assert (H : unique_ids [ana; zoe; bob]).
  { unfold unique_ids. refine (bool_decide_unpack _ _). vm_compute. exact I. }
  split; [exact H|]. split.
  - apply (proj1 (searchById_unique [ana; zoe; bob] "3030" H) bob).
    split; [right; right; left|]; reflexivity.
  - apply (proj2 (searchById_unique [ana; zoe; bob] "4040" H)).
    simpl. intuition discriminate.
Defined.

(** X2: after a registration answered [ok], [searchById] on the written
    collection finds the new record under its id, and every other id is
    looked up as before. *)
Theorem register_then_search afiliados i n a b p g e afiliados' :
  registerAffiliate afiliados i n a b p g e = (ok, afiliados') ->
  searchById afiliados' i = Some (Affiliate.Make i n a b p g e)
  /\ forall j, j <> i -> searchById afiliados' j = searchById afiliados j.
Proof.
  intros H. apply registerAffiliate_ok_inv in H as (_ & Hnew & ->). split.
  - rewrite searchById_app_r by now apply searchById_not_stored.
    unfold searchById. simpl. now rewrite String.eqb_refl.
  - intros j Hj. destruct (searchById afiliados j) as [af|] eqn:E.
    + now apply searchById_app_l.
    + rewrite searchById_app_r by assumption. unfold searchById. simpl.
      destruct (String.eqb_spec i j); [congruence|reflexivity].
Qed.

Lemma register_then_search_witness :
  registerAffiliate [ana] "3030" "Bob" "Paz" "01/01/2000" "C" "M" "bob@eps.co"
  = (ok, [ana; bob])
  /\ searchById [ana; bob] "3030" = Some bob
  /\ searchById [ana; bob] "1010" = searchById [ana] "1010".
Proof.
  assert (H : registerAffiliate [ana] "3030" "Bob" "Paz" "01/01/2000" "C" "M"
                "bob@eps.co" = (ok, [ana; bob])) by reflexivity.
  split; [exact H|]. split.
  - apply (register_then_search _ _ _ _ _ _ _ _ _ H).
  - apply (register_then_search _ _ _ _ _ _ _ _ _ H). discriminate.
Defined.

(** X3: [registerAffiliate] answers one of four codes and writes only when
    it answers [ok]: then the collection grows by exactly the new record,
    whose fields passed every check and whose id was not stored; on any
    other answer the collection is unchanged. *)
Theorem registerAffiliate_writes_only_on_ok afiliados i n a b p g e :
  let r := registerAffiliate afiliados i n a b p g e in
  In (fst r) [ok; invalid_data; invalid_date_format; id_already_exists]
  /\ (fst r = ok ->
      snd r = afiliados ++ [Affiliate.Make i n a b p g e]
      /\ valid_fields i n a b p g e
      /\ ~ In i (map Affiliate.id afiliados))
  /\ (fst r <> ok -> snd r = afiliados).
Proof.
  cbv zeta. split; [apply registerAffiliate_codes|].
  split; [|apply registerAffiliate_not_ok].
  destruct (registerAffiliate afiliados i n a b p g e) as [r l] eqn:E.
  simpl. intros ->. apply registerAffiliate_ok_inv in E. tauto.
Qed.

(** X4: every record of a collection built by [registerAffiliate] from the
    empty store has no blank field, a birth that parses, a plan among A, B
    and C, a gender among M, F and X, and an email with an at sign and a
    dot. *)
Theorem registered_records_valid afiliados af :
  registered afiliados -> In af afiliados ->
  Forall (fun s => ~ whitespace_only s)
    [Affiliate.id af; Affiliate.names af; Affiliate.surnames af;
     Affiliate.birth af; Affiliate.plan af; Affiliate.gender af;
     Affiliate.email af]
  /\ convertir_fecha (Affiliate.birth af) <> None
  /\ In (Affiliate.plan af) ["A"; "B"; "C"]
  /\ In (Affiliate.gender af) ["M"; "F"; "X"]
  /\ has_char "@" (Affiliate.email af) /\ has_char "." (Affiliate.email af).
Proof.
  intros Hr Hin. apply registered_well_formed in Hr.
  rewrite List.Forall_forall in Hr. specialize (Hr af Hin).
  unfold well_formed, valid_fields in Hr.
  destruct Hr as (Hb & Hrest). split; [|exact Hrest].
  now apply List.Forall_Exists_neg.
Qed.

Lemma registered_records_valid_witness :
  registered [ana] /\ Forall well_formed [ana].
Proof.
  assert (H : registered [ana]).
  { exact (registered_step [] "1010" "Ana" "Diaz" "01/02/1990" "A" "F"
             "ana@eps.co" registered_empty). }
  split; [exact H|].
  assert (Hin : In ana [ana]) by (left; reflexivity).
  pose proof (registered_records_valid [ana] ana H Hin) as Hv.
  apply List.Forall_forall. intros af [<-|[]].
  unfold well_formed, valid_fields. split; [|apply Hv].
  apply List.Forall_Exists_neg, Hv.
Defined.

(** ** [stats] on the plans and the genders *)

Lemma count_plan_cons p af afiliados :
  count_plan p (af :: afiliados)
  = (if String.eqb (Affiliate.plan af) p then 1 else 0) + count_plan p afiliados.
Proof.
  unfold count_plan. simpl.
  destruct (String.eqb (Affiliate.plan af) p); simpl length; lia.
Qed.

Lemma stats_step_totales hoy acc af k :
  totales_plan (stats_step hoy acc af) !! k
  = match totales_plan acc !! k with
    | Some n => Some (n + (if String.eqb (Affiliate.plan af) k then 1 else 0))
    | None => None
    end.
Proof.
  assert (H : totales_plan (stats_step hoy acc af)
              = match totales_plan acc !! Affiliate.plan af with
                | Some n => <[Affiliate.plan af := n + 1]> (totales_plan acc)
                | None => totales_plan acc
                end).
  { unfold stats_step. destruct (convertir_fecha _); [|reflexivity].
    now destruct (edades_por_genero acc !! Affiliate.gender af). }
  rewrite H. clear H.
  destruct (String.eqb_spec (Affiliate.plan af) k) as [->|Hne].
  - destruct (totales_plan acc !! k) as [n|] eqn:E; [|now rewrite E].
    now rewrite lookup_insert_eq.
  - destruct (totales_plan acc !! Affiliate.plan af) as [n|].
    + rewrite lookup_insert_ne by assumption.
      destruct (totales_plan acc !! k); [f_equal; lia|reflexivity].
    + destruct (totales_plan acc !! k); [f_equal; lia|reflexivity].
Qed.

Lemma stats_loop_totales hoy afiliados : forall acc k,
  totales_plan (fold_left (stats_step hoy) afiliados acc) !! k
  = match totales_plan acc !! k with
    | Some n => Some (n + count_plan k afiliados)
    | None => None
    end.
Proof.
  induction afiliados as [|af l IH]; intros acc k.
  - simpl. destruct (totales_plan acc !! k); [f_equal; unfold count_plan; simpl; lia
                                               |reflexivity].
  - cbn [fold_left]. rewrite IH, stats_step_totales, count_plan_cons.
    destruct (totales_plan acc !! k); [f_equal; lia|reflexivity].
Qed.

Lemma edades_de_cons hoy g af afiliados :
  edades_de hoy g (af :: afiliados)
  = (if String.eqb (Affiliate.gender af) g then edades hoy [af] else [])
    ++ edades_de hoy g afiliados.
Proof.
  unfold edades_de. simpl.
  destruct (String.eqb (Affiliate.gender af) g); [|reflexivity].
  apply edades_cons.
Qed.

Lemma stats_step_genero hoy acc af g :
  edades_por_genero (stats_step hoy acc af) !! g
  = (fun e => e ++ (if String.eqb (Affiliate.gender af) g
                    then edades hoy [af] else []))
    <$> edades_por_genero acc !! g.
Proof.
  unfold stats_step, edades. simpl.
  destruct (convertir_fecha (Affiliate.birth af)) as [d|]; simpl.
  - destruct (String.eqb_spec (Affiliate.gender af) g) as [->|Hne].
    + destruct (edades_por_genero acc !! g) as [e|] eqn:E; simpl.
      * now rewrite lookup_insert_eq.
      * now rewrite E.
    + destruct (edades_por_genero acc !! Affiliate.gender af) as [e0|]; simpl.
      * rewrite lookup_insert_ne by assumption.
        destruct (edades_por_genero acc !! g); simpl; [|reflexivity].
        now rewrite app_nil_r.
      * destruct (edades_por_genero acc !! g); simpl; [|reflexivity].
        now rewrite app_nil_r.
  - destruct (String.eqb (Affiliate.gender af) g);
      destruct (edades_por_genero acc !! g); simpl; trivial;
      now rewrite app_nil_r.
Qed.

Lemma stats_loop_genero hoy afiliados : forall acc g,
  edades_por_genero (fold_left (stats_step hoy) afiliados acc) !! g
  = (fun e => e ++ edades_de hoy g afiliados) <$> edades_por_genero acc !! g.
Proof.
  induction afiliados as [|af l IH]; intros acc g.
  - simpl. destruct (edades_por_genero acc !! g); simpl; [|reflexivity].
    unfold edades_de, edades. simpl. now rewrite app_nil_r.
  - cbn [fold_left]. rewrite IH, stats_step_genero, edades_de_cons.
    destruct (edades_por_genero acc !! g); simpl; [|reflexivity].
    now rewrite <- List.app_assoc.
Qed.

Lemma well_formed_edades hoy afiliados :
  Forall well_formed afiliados ->
  length (edades hoy afiliados) = length afiliados
  /\ edades_genero hoy afiliados = edades hoy afiliados.
Proof.
  intros H. split.
  - induction H as [|af l Hw Hl IH]; [reflexivity|].
    rewrite edades_cons, length_app, IH.
    destruct Hw as (_ & Hb & _). unfold edades. simpl.
    destruct (convertir_fecha (Affiliate.birth af)); [reflexivity|congruence].
  - unfold edades_genero. induction H as [|af l Hw Hl IH]; [reflexivity|].
    destruct Hw as (_ & _ & _ & Hg & _). apply genero_valido_iff in Hg.
    cbn [List.filter]. rewrite Hg.
    now rewrite (edades_cons hoy af l), (edades_cons hoy af _), IH.
Qed.

Lemma well_formed_counts afiliados :
  Forall well_formed afiliados ->
  count_plan "A" afiliados + count_plan "B" afiliados + count_plan "C" afiliados
  = Z.of_nat (length afiliados).
Proof.
  induction 1 as [|af l Hw Hl IH]; [reflexivity|].
  rewrite !count_plan_cons. destruct Hw as (_ & _ & Hp & _).
  cbn [length]. rewrite Nat2Z.inj_succ, <- IH.
  destruct Hp as [<-|[<-|[<-|[]]]]; simpl; lia.
Qed.

Lemma edades_de_incl hoy g afiliados x :
  In x (edades_de hoy g afiliados) -> In x (edades hoy afiliados).
Proof.
  induction afiliados as [|af l IH].
  - unfold edades_de. simpl. tauto.
  - rewrite edades_de_cons, (edades_cons hoy af l), !in_app_iff.
    destruct (String.eqb (Affiliate.gender af) g); [tauto|].
    intros [[]|H]. right. now apply IH.
Qed.

Lemma sum_bounds lo hi e :
  Forall (fun x => lo <= x <= hi) e ->
  lo * Z.of_nat (length e) <= sum e <= hi * Z.of_nat (length e).
Proof.
  induction 1 as [|x l Hx Hl IH]; [simpl; lia|].
  cbn [length sum fold_right]. fold (sum l). rewrite Nat2Z.inj_succ. lia.
Qed.

Lemma promedio_bounds lo hi e :
  e <> [] -> Forall (fun x => lo <= x <= hi) e ->
  (inject_Z lo <= promedio e)%Q /\ (promedio e <= inject_Z hi)%Q.
Proof.
  intros Hne Hall. apply sum_bounds in Hall.
  destruct e as [|x l]; [congruence|].
  unfold promedio, Qle, inject_Z. cbn [Qnum Qden].
  replace (Z.pos (Pos.of_nat (length (x :: l))))
    with (Z.of_nat (length (x :: l))).
  - lia.
  - cbn [length]. rewrite <- Pos.of_nat_succ, Zpos_P_of_succ_nat. lia.
Qed.

(** X5: in a collection built by [registerAffiliate] from the empty store no
    affiliate is skipped by [stats]: every birth gives an age, and the ages
    of the affiliates of gender M, F or X are all the ages. *)
Theorem registered_ages_complete hoy afiliados :
  registered afiliados ->
  length (edades hoy afiliados) = length afiliados
  /\ edades_genero hoy afiliados = edades hoy afiliados.
Proof.
  intros H. apply well_formed_edades. now apply registered_well_formed.
Qed.

Lemma registered_ages_complete_witness :
  registered [ana]
  /\ length (edades hoy_ej [ana]) = length [ana]
  /\ edades_genero hoy_ej [ana] = edades hoy_ej [ana].
Proof.
  assert (H : registered [ana]).
  { exact (registered_step [] "1010" "Ana" "Diaz" "01/02/1990" "A" "F"
             "ana@eps.co" registered_empty). }
  split; [exact H|]. exact (registered_ages_complete hoy_ej [ana] H).
Defined.

(** X6: for a non-empty collection, the entry [totales] of [stats] has
    exactly the keys A, B and C, and each holds the number of affiliates with
    that plan; an affiliate with any other plan is counted nowhere. *)
Theorem stats_totales hoy afiliados :
  afiliados <> [] ->
  exists t,
    totales_of (stats hoy afiliados) = Some t
    /\ (forall p, In p ["A"; "B"; "C"] -> t !! p = Some (count_plan p afiliados))
    /\ (forall p, ~ In p ["A"; "B"; "C"] -> t !! p = None).
Proof.
  intros Hne. destruct afiliados as [|af l]; [congruence|].
  unfold stats. eexists. split; [reflexivity|]. split.
  - intros p Hp. rewrite stats_loop_totales. cbn [totales_plan].
    destruct Hp as [<-|[<-|[<-|[]]]]; reflexivity.
  - intros p Hp. rewrite stats_loop_totales. cbn [totales_plan].
    simpl in Hp.
    rewrite !lookup_insert_ne, lookup_empty by tauto. reflexivity.
Qed.

Lemma stats_totales_witness :
  [ana; zoe; bob] <> []
  /\ exists t,
       totales_of (stats hoy_ej [ana; zoe; bob]) = Some t
       /\ t !! "B" = Some 1 /\ t !! "Z" = None.
Proof.
  assert (Hne : [ana; zoe; bob] <> []) by discriminate.
  split; [exact Hne|].
  destruct (stats_totales hoy_ej [ana; zoe; bob] Hne) as (t & Ht & Hin & Hout).
  exists t. split; [exact Ht|]. split.
  - rewrite (Hin "B") by (right; left; reflexivity). reflexivity.
  - apply Hout. simpl. intuition discriminate.
Defined.

Lemma stats_promedios_lookup hoy afiliados g :
  afiliados <> [] ->
  exists pr,
    promedios_of (stats hoy afiliados) = Some pr
    /\ pr !! g = if bool_decide (In g ["M"; "F"; "X"])
                 then Some (promedio (edades_de hoy g afiliados)) else None.
Proof.
  intros Hne. destruct afiliados as [|af l]; [congruence|].
  unfold stats. eexists. split; [reflexivity|].
  rewrite lookup_fmap, stats_loop_genero. cbn [edades_por_genero].
  destruct (bool_decide_reflect (In g ["M"; "F"; "X"])) as [Hg|Hg].
  - destruct Hg as [<-|[<-|[<-|[]]]]; reflexivity.
  - simpl in Hg. rewrite !lookup_insert_ne, lookup_empty by tauto. reflexivity.
Qed.

(** X7: for a non-empty collection, the entry [promedios_por_genero] of
    [stats] has exactly the keys M, F and X; the entry of a gender without an
    affiliate whose birth parses is 0; and the entry of a gender is fixed by
    the ages of the affiliates of that gender whose birth parses: two
    collections that agree on those ages report the same value, so an
    affiliate of another gender, or with a malformed birth, changes nothing. *)
Theorem stats_promedios hoy afiliados :
  afiliados <> [] ->
  exists pr,
    promedios_of (stats hoy afiliados) = Some pr
    /\ (forall g, In g ["M"; "F"; "X"] <-> is_Some (pr !! g))
    /\ (forall g, In g ["M"; "F"; "X"] -> edades_de hoy g afiliados = [] ->
          pr !! g = Some 0%Q)
    /\ (forall g otros pr',
          promedios_of (stats hoy otros) = Some pr' ->
          edades_de hoy g otros = edades_de hoy g afiliados ->
          pr' !! g = pr !! g).
Proof.
  intros Hne.
  destruct (stats_promedios_lookup hoy afiliados "M" Hne) as (pr & Hpr & _).
  assert (Hl : forall g,
             pr !! g = if bool_decide (In g ["M"; "F"; "X"])
                       then Some (promedio (edades_de hoy g afiliados))
                       else None).
  { intros g. destruct (stats_promedios_lookup hoy afiliados g Hne)
      as (pr0 & Hpr0 & H0). congruence. }
  exists pr. split; [exact Hpr|]. split; [|split].
  - intros g. rewrite Hl.
    destruct (bool_decide_reflect (In g ["M"; "F"; "X"])) as [Hg|Hg].
    + split; eauto.
    + split; [contradiction|]. intros [x Hx]. discriminate.
  - intros g Hg He. rewrite Hl, He.
    destruct (bool_decide_reflect (In g ["M"; "F"; "X"])); [reflexivity|].
    contradiction.
  - intros g otros pr' Hpr' He.
    assert (Ho : otros <> []) by (intros ->; discriminate Hpr').
    destruct (stats_promedios_lookup hoy otros g Ho) as (pr0 & Hpr0 & H0).
    rewrite Hl, <- He. congruence.
Qed.

Lemma stats_promedios_witness :
  [ana; zoe; bob] <> []
  /\ exists pr,
       promedios_of (stats hoy_ej [ana; zoe; bob]) = Some pr
       /\ is_Some (pr !! "F") /\ pr !! "X" = Some 0%Q
       /\ ~ is_Some (pr !! "Z")
       /\ forall pr',
            promedios_of (stats hoy_ej [ana; bob]) = Some pr' ->
            pr' !! "M" = pr !! "M".
Proof.
  assert (Hne : [ana; zoe; bob] <> []) by discriminate.
  split; [exact Hne|].
  destruct (stats_promedios hoy_ej [ana; zoe; bob] Hne)
    as (pr & Hp & Hkeys & Hzero & Hsame).
  exists pr. split; [exact Hp|]. split; [|split; [|split]].
  - apply Hkeys. right; left; reflexivity.
  - apply Hzero; [right; right; left|]; reflexivity.
  - rewrite <- Hkeys. simpl. intuition discriminate.
  - intros pr' Hpr'. apply (Hsame "M" [ana; bob] pr' Hpr'). reflexivity.
Defined.

(** X8: for a non-empty collection built by [registerAffiliate] from the
    empty store, the three plan totals of [stats] add up to the number of
    affiliates. *)
Theorem registered_totales_sum hoy afiliados :
  registered afiliados -> afiliados <> [] ->
  exists t a b c,
    totales_of (stats hoy afiliados) = Some t
    /\ t !! "A" = Some a /\ t !! "B" = Some b /\ t !! "C" = Some c
    /\ a + b + c = Z.of_nat (length afiliados).
Proof.
  intros Hr Hne. apply registered_well_formed, well_formed_counts in Hr.
  destruct afiliados as [|af l]; [congruence|].
  unfold stats. eexists. do 3 eexists. split; [reflexivity|].
  rewrite !stats_loop_totales. cbn [totales_plan].
  repeat (split; [reflexivity|]). lia.
Qed.

Lemma registered_totales_sum_witness :
  registered [ana] /\ [ana] <> []
  /\ exists t a b c,
       totales_of (stats hoy_ej [ana]) = Some t
       /\ t !! "A" = Some a /\ t !! "B" = Some b /\ t !! "C" = Some c
       /\ a + b + c = 1.
Proof.
  assert (H : registered [ana]).
  { exact (registered_step [] "1010" "Ana" "Diaz" "01/02/1990" "A" "F"
             "ana@eps.co" registered_empty). }
  assert (Hne : [ana] <> []) by discriminate.
  split; [exact H|]. split; [exact Hne|].
  exact (registered_totales_sum hoy_ej [ana] H Hne).
Defined.

(** X9: whenever some affiliate of gender [g] (M, F or X) has a birth that
    parses, the mean age that [stats] reports for [g] lies between the
    global minimum and the global maximum that it reports. *)
Theorem stats_promedio_between hoy afiliados g :
  In g ["M"; "F"; "X"] -> edades_de hoy g afiliados <> [] ->
  exists t pr mn mx q,
    stats hoy afiliados = StatsDict t pr mn mx
    /\ pr !! g = Some q
    /\ (inject_Z mn <= q)%Q /\ (q <= inject_Z mx)%Q.
Proof.
  intros Hg Hne.
  destruct afiliados as [|af l]; [now elim Hne|].
  unfold stats. do 4 eexists. exists (promedio (edades_de hoy g (af :: l))).
  split; [reflexivity|]. split.
  - rewrite lookup_fmap, stats_loop_genero. cbn [edades_por_genero].
    destruct Hg as [<-|[<-|[<-|[]]]]; reflexivity.
  - rewrite stats_loop_todas. cbn [todas_las_edades app].
    destruct (edades hoy (af :: l)) as [|x r] eqn:E.
    + exfalso. destruct (edades_de hoy g (af :: l)) as [|y r'] eqn:E';
        [congruence|].
      assert (Hy : In y (edades hoy (af :: l))).
      { apply (edades_de_incl hoy g). rewrite E'. now left. }
      rewrite E in Hy. exact Hy.
    + apply promedio_bounds; trivial.
      destruct (min_list_spec r x) as [_ Hmin].
      destruct (max_list_spec r x) as [_ Hmax].
      rewrite List.Forall_forall in *. intros y Hy.
      apply edades_de_incl in Hy. rewrite E in Hy.
      specialize (Hmin y Hy). specialize (Hmax y Hy). lia.
Qed.

Lemma stats_promedio_between_witness :
  In "M" ["M"; "F"; "X"] /\ edades_de hoy_ej "M" [zoe; bob] <> []
  /\ exists t pr mn mx q,
       stats hoy_ej [zoe; bob] = StatsDict t pr mn mx
       /\ pr !! "M" = Some q
       /\ (inject_Z mn <= q)%Q /\ (q <= inject_Z mx)%Q.
Proof.
  assert (Hg : In "M" ["M"; "F"; "X"]) by (left; reflexivity).
  assert (Hne : edades_de hoy_ej "M" [zoe; bob] <> [])
    by (vm_compute; discriminate).
  split; [exact Hg|]. split; [exact Hne|].
  exact (stats_promedio_between hoy_ej [zoe; bob] "M" Hg Hne).
Defined.

(** ** [listAffiliates] on a list already in order *)

Lemma bubble_sorted m : forall l,
  StronglySorted surname_le l -> bubble m l = l.
Proof.
  induction m as [|m IH]; intros l Hs; [now destruct l as [|a [|b r]]|].
  destruct l as [|a [|b r]]; trivial. cbn [bubble].
  inversion Hs as [|? ? Hr Ha]; subst.
  inversion Ha as [|? ? Hab _]; subst.
  apply gt_false_leb in Hab. fold (surname_gt a b) in Hab. rewrite Hab.
  now rewrite (IH (b :: r)).
Qed.

Lemma passes_sorted_fixed ms : forall l,
  StronglySorted surname_le l ->
  fold_left (fun l m => bubble m l) ms l = l.
Proof.
  induction ms as [|m ms IH]; intros l Hs; simpl; trivial.
  rewrite bubble_sorted by assumption. now apply IH.
Qed.

(** X10: [listAffiliates] returns a collection that is already in surname
    order unchanged, and listing the output of a listing again returns that
    same output. *)
Theorem listAffiliates_fixed_point afiliados :
  (StronglySorted surname_le afiliados ->
   listAffiliates afiliados = Some afiliados)
  /\ (forall out, listAffiliates afiliados = Some out ->
                  listAffiliates out = Some out).
Proof.
  split.
  - intros Hs. rewrite listAffiliates_bubble. f_equal.
    now apply passes_sorted_fixed.
  - intros out Ho. rewrite listAffiliates_bubble in Ho. inversion Ho as [Hout].
    rewrite Hout, listAffiliates_bubble. f_equal.
    apply passes_sorted_fixed. rewrite <- Hout.
    rewrite <- (app_nil_r afiliados) at 2.
    apply passes_sorted; [reflexivity|].
    split; [constructor|]. apply List.Forall_forall. intros; constructor.
Qed.

Lemma listAffiliates_fixed_point_witness :
  listAffiliates [zoe; ana; bob] = Some [ana; bob; zoe]
  /\ listAffiliates [ana; bob; zoe] = Some [ana; bob; zoe].
Proof.
  assert (H : listAffiliates [zoe; ana; bob] = Some [ana; bob; zoe])
    by reflexivity.
  split; [exact H|].
  exact (proj2 (listAffiliates_fixed_point [zoe; ana; bob]) _ H).
Defined.

(** ** [calcular_edad] *)

(** X11: the age computed by [calcular_edad] is 0 on the day of birth, is
    exactly [k] on the [k]-th anniversary, never decreases as the current
    date advances, and is negative exactly when the birth date is after the
    current date. *)
Theorem calcular_edad_order hoy nacimiento :
  calcular_edad nacimiento nacimiento = 0
  /\ (forall k,
        calcular_edad
          (Datetime.Date (Datetime.year nacimiento + k)
             (Datetime.month nacimiento) (Datetime.day nacimiento))
          nacimiento = k)
  /\ (forall despues,
        date_le hoy despues ->
        calcular_edad hoy nacimiento <= calcular_edad despues nacimiento)
  /\ (0 <= calcular_edad hoy nacimiento <-> date_le nacimiento hoy).
Proof.
  unfold calcular_edad, date_le.
  destruct hoy as [y m d], nacimiento as [yb mb db].
  cbn [Datetime.year Datetime.month Datetime.day].
  repeat split.
  - rewrite !Z.ltb_irrefl, Z.eqb_refl. cbn [orb andb]. lia.
  - intros k. rewrite !Z.ltb_irrefl, Z.eqb_refl. cbn [orb andb]. lia.
  - intros [y' m' d']. cbn [Datetime.year Datetime.month Datetime.day].
    intros H.
    destruct (Z.ltb_spec m mb), (Z.eqb_spec m mb), (Z.ltb_spec d db),
      (Z.ltb_spec m' mb), (Z.eqb_spec m' mb), (Z.ltb_spec d' db);
      cbn [orb andb]; lia.
  - destruct (Z.ltb_spec m mb), (Z.eqb_spec m mb), (Z.ltb_spec d db);
      cbn [orb andb]; lia.
  - destruct (Z.ltb_spec m mb), (Z.eqb_spec m mb), (Z.ltb_spec d db);
      cbn [orb andb]; lia.
Qed.

Lemma calcular_edad_order_witness :
  date_le (Datetime.Date 2024 1 31) hoy_ej
  /\ calcular_edad (Datetime.Date 2024 1 31) (Datetime.Date 1990 2 1)
     <= calcular_edad hoy_ej (Datetime.Date 1990 2 1).
Proof.
  assert (H : date_le (Datetime.Date 2024 1 31) hoy_ej).
  { right. split; [reflexivity|]. left. reflexivity. }
  split; [exact H|].
  exact (proj1 (proj2 (proj2 (calcular_edad_order (Datetime.Date 2024 1 31)
                                 (Datetime.Date 1990 2 1)))) hoy_ej H).
Defined.

(** ** [findUser] *)

Lemma find_user_none users nombre :
  _find_user users nombre = None
  <-> Forall (fun u => User.name u <> nombre) users.
Proof.
  unfold _find_user. induction users as [|u l IH]; simpl.
  - split; [constructor|reflexivity].
  - destruct (String.eqb_spec (User.name u) nombre) as [E|E].
    + split; [discriminate|]. intros H. inversion H; subst. contradiction.
    + rewrite IH. split; [now constructor|]. intros H. now inversion H.
Qed.

(** X12: [findUser] returns the first user of the file whose name is the one
    asked for, so a later user with the same name is never returned; it
    returns nothing exactly when no user has that name. *)
Theorem findUser_first users nombre :
  (forall u, findUser users nombre = Some u ->
     exists before after,
       users = before ++ u :: after /\ User.name u = nombre
       /\ Forall (fun x => User.name x <> nombre) before)
  /\ (forall before u after,
        users = before ++ u :: after -> User.name u = nombre ->
        Forall (fun x => User.name x <> nombre) before ->
        findUser users nombre = Some u)
  /\ (findUser users nombre = None
      <-> Forall (fun u => User.name u <> nombre) users).
Proof.
  unfold findUser. split; [|split; [|apply find_user_none]].
  - unfold _find_user. induction users as [|x l IH]; simpl; [discriminate|].
    intros u. destruct (String.eqb_spec (User.name x) nombre) as [E|E].
    + intros H. inversion H; subst. exists [], l. repeat split. constructor.
    + intros H. destruct (IH u H) as (b & a & -> & Hn & Hb).
      exists (x :: b), a. repeat split; trivial. now constructor.
  - intros before u after -> Hu Hb. unfold _find_user.
    induction Hb as [|x l Hx Hl IH]; simpl.
    + apply String.eqb_eq in Hu. now rewrite Hu.
    + apply String.eqb_neq in Hx. now rewrite Hx.
Qed.


(** ** [_next_id] and the ids of a collection *)

Lemma id_values_in citas vs c :
  id_values citas vs -> In c citas ->
  exists v, In v vs /\ Py.int (Appointment.id c) = Some v.
Proof.
  unfold id_values. induction 1 as [|c1 v l vs' Hv Hvs IH]; [contradiction|].
  intros [->|Hin].
  - exists v. split; [now left|exact Hv].
  - destruct (IH Hin) as (w & Hw & Hc). exists w. split; [now right|exact Hc].
Qed.

Lemma next_number_above citas n c v :
  next_number citas n -> In c citas ->
  Py.int (Appointment.id c) = Some v -> v < n.
Proof.
  intros Hn Hin Hv. destruct citas as [|c0 citas]; [contradiction|].
  destruct Hn as (vs & Hvs & _ & Hmax).
  destruct (id_values_in _ _ _ Hvs Hin) as (w & Hw & Hc).
  rewrite List.Forall_forall in Hmax. apply Hmax in Hw.
  assert (v = w) by congruence. lia.
Qed.

(** X13: [_next_id] raises exactly when a stored id does not read as a
    number; when it returns, the new id reads back as a number greater
    than every stored one, so it is the id of no stored appointment. *)
Theorem next_id_fresh rows :
  (_next_id rows = None <-> ~ ids_numeric rows)
  /\ (forall s, _next_id rows = Some s ->
        exists n, Py.int s = Some n
          /\ Forall (fun r => Appointment.id r <> s
                              /\ forall v, Py.int (Appointment.id r) = Some v
                                           -> v < n) rows).
Proof.
  split.
  - split.
    + intros H Hn. destruct (next_id_numeric rows Hn) as (n & Hs & _).
      congruence.
    + intros Hn. destruct (_next_id rows) as [s|] eqn:E; [|reflexivity].
      apply next_id_inv in E as (_ & _ & _ & Hnum). contradiction.
  - intros s Hs. apply next_id_inv in Hs as (n & -> & Hn & _).
    exists n. split; [apply int_str|].
    apply List.Forall_forall. intros r Hr. split.
    + now apply (next_number_fresh rows n r).
    + intros v Hv. now apply (next_number_above rows n r v).
Qed.

Lemma next_id_fresh_witness :
  _next_id agenda = Some "6"
  /\ exists n, Py.int "6" = Some n
       /\ Forall (fun r => Appointment.id r <> "6"
                           /\ forall v, Py.int (Appointment.id r) = Some v
                                        -> v < n) agenda.
Proof.
  assert (H : _next_id agenda = Some "6") by reflexivity.
  split; [exact H|]. exact (proj2 (next_id_fresh agenda) "6" H).
Defined.

Lemma cancel_ids users citas pn pw aid :
  map Appointment.id (snd (cancelAppointment users citas pn pw aid))
  = map Appointment.id citas
  /\ length (snd (cancelAppointment users citas pn pw aid)) = length citas.
Proof.
  destruct (cancel_store users citas pn pw aid)
    as [->|(l1 & c & l2 & -> & _ & ->)]; [split; reflexivity|].
  rewrite !map_app, !length_app. split; reflexivity.
Qed.

Lemma consecutive_ids_S n :
  consecutive_ids (S n) = consecutive_ids n ++ [Py.str (Z.of_nat (S n))].
Proof.
  unfold consecutive_ids. rewrite seq_S, map_app. reflexivity.
Qed.

Lemma id_values_of_numbers citas : forall ks,
  map Appointment.id citas = map (fun k => Py.str (Z.of_nat k)) ks ->
  id_values citas (map Z.of_nat ks).
Proof.
  unfold id_values. induction citas as [|c l IH]; intros [|k ks] H;
    try discriminate; [constructor|].
  simpl in H. inversion H as [[Hc Hl]]. simpl. constructor.
  - rewrite Hc. apply int_str.
  - now apply IH.
Qed.

Lemma id_values_unique citas : forall vs vs',
  id_values citas vs -> id_values citas vs' -> vs = vs'.
Proof.
  unfold id_values. induction citas as [|c l IH]; intros vs vs' H H'.
  - inversion H. now inversion H'.
  - inversion H as [|? v ? r Hv Hr]; subst.
    inversion H' as [|? v' ? r' Hv' Hr']; subst.
    f_equal; [congruence|now apply IH].
Qed.

Lemma next_number_consecutive citas n :
  map Appointment.id citas = consecutive_ids (length citas) ->
  next_number citas n -> n = Z.of_nat (S (length citas)).
Proof.
  intros Hids Hn. destruct citas as [|c l] eqn:E; [simpl in *; lia|].
  rewrite <- E in *. assert (Hlen : length citas = S (length l)) by now subst.
  destruct citas as [|c0 l0]; [discriminate|].
  destruct Hn as (vs & Hvs & Hin & Hmax).
  apply id_values_of_numbers in Hids.
  rewrite (id_values_unique _ _ _ Hvs Hids) in *.
  apply in_map_iff in Hin as (k & Hk & Hin). apply in_seq in Hin.
  rewrite List.Forall_forall in Hmax.
  assert (Hlast : In (Z.of_nat (length (c0 :: l0)))
                     (map Z.of_nat (seq 1 (length (c0 :: l0))))).
  { apply in_map, in_seq. simpl. lia. }
  apply Hmax in Hlast. lia.
Qed.

Lemma str_inj a b : Py.str a = Py.str b -> a = b.
Proof.
  intros H. assert (E : Py.int (Py.str a) = Py.int (Py.str b)) by now rewrite H.
  rewrite !int_str in E. congruence.
Qed.

Lemma consecutive_ids_NoDup n : List.NoDup (consecutive_ids n).
Proof.
  unfold consecutive_ids. apply Finite.Injective_map_NoDup.
  - intros a b H. apply str_inj in H. lia.
  - apply seq_NoDup.
Qed.

Lemma booked_consecutive citas :
  booked citas -> map Appointment.id citas = consecutive_ids (length citas).
Proof.
  induction 1 as [|users citas pn pw dn ds ts r citas' _ IH H
                  |users citas pn pw aid _ IH]; [reflexivity| |].
  - apply schedule_store in H as [->|(_ & _ & n & Hn & ->)]; trivial.
    rewrite map_app, length_app. cbn [length map Appointment.id].
    replace (length citas + 1)%nat with (S (length citas)) by lia.
    rewrite consecutive_ids_S, IH.
    now rewrite (next_number_consecutive citas n IH Hn).
  - destruct (cancel_ids users citas pn pw aid) as [-> ->]. exact IH.
Qed.

(** X14: in every collection that [scheduleAppointment] and
    [cancelAppointment] build from the empty store, the ids are 1, 2, ...,
    in stored order, so no two appointments share an id. *)
Theorem booked_ids_consecutive citas :
  booked citas ->
  map Appointment.id citas = consecutive_ids (length citas)
  /\ List.NoDup (map Appointment.id citas).
Proof.
  intros H. apply booked_consecutive in H. split; [exact H|].
  rewrite H. apply consecutive_ids_NoDup.
Qed.

Lemma booked_ids_consecutive_witness :
  booked [Appointment.Make "1" "pepe" "ruiz" "15/03/2024" "08:00" "scheduled"]
  /\ map Appointment.id
       [Appointment.Make "1" "pepe" "ruiz" "15/03/2024" "08:00" "scheduled"]
     = consecutive_ids 1.
Proof.
  assert (H : booked [Appointment.Make "1" "pepe" "ruiz" "15/03/2024" "08:00"
                        "scheduled"]).
  { apply (booked_schedule usuarios [] "pepe" "clave" "ruiz" "15/03/2024"
             "08:00" ok); [constructor | reflexivity]. }
  split; [exact H|]. exact (proj1 (booked_ids_consecutive _ H)).
Defined.

(** ** What [scheduleAppointment] answers and writes *)

Lemma valid_slot_codes ds ts :
  In (_valid_slot ds ts) [ok; invalid_data; out_of_range].
Proof.
  unfold _valid_slot.
  destruct (Datetime.strptime_date ds) as [fecha|]; [|simpl; auto].
  destruct (Datetime.strptime_time ts) as [hora|]; [|simpl; auto].
  destruct (4 <? _); [simpl; auto|].
  destruct (negb (_ && _)); [simpl; auto|].
  destruct (negb (_ || _)); simpl; auto.
Qed.

Lemma schedule_codes users citas pn pw dn ds ts r citas' :
  scheduleAppointment users citas pn pw dn ds ts = Some (r, citas') ->
  In r [ok; invalid_data; doctor_not_found; not_logged_in; out_of_range;
        slot_taken].
Proof.
  unfold scheduleAppointment. cbv zeta.
  destruct (existsb Py.blank _); [intros H; inversion H; simpl; auto|].
  destruct (match findUser users dn with None => true | Some d => _ end);
    [intros H; inversion H; simpl; auto|].
  destruct (not_authenticated _ pw); [intros H; inversion H; simpl; auto|].
  destruct (negb _).
  { intros H. inversion H.
    destruct (valid_slot_codes ds ts) as [E|[E|[E|[]]]]; rewrite <- E;
      simpl; auto 7. }
  destruct (existsb (collides dn ds ts) citas);
    [intros H; inversion H; simpl; auto 7|].
  destruct (_next_id citas); [|discriminate].
  cbn [mbind option_bind]. intros H. inversion H. simpl. auto.
Qed.

(** X15: when [scheduleAppointment] returns, its answer is one of six codes
    and it writes only on [ok]: then the collection grows by exactly one
    appointment, scheduled for the requested patient, doctor, date and time,
    in a slot that passed validation and was free; on any other answer the
    collection is unchanged. *)
Theorem scheduleAppointment_writes_only_on_ok
    users citas pn pw dn ds ts r citas' :
  scheduleAppointment users citas pn pw dn ds ts = Some (r, citas') ->
  In r [ok; invalid_data; doctor_not_found; not_logged_in; out_of_range;
        slot_taken]
  /\ (r = ok ->
      passes users pn pw dn ds ts
      /\ ~ In (dn, ds, ts) (scheduled_slots citas)
      /\ exists new_id,
           citas' = citas ++ [Appointment.Make new_id pn dn ds ts "scheduled"])
  /\ (r <> ok -> citas' = citas).
Proof.
  intros H. split; [eapply schedule_codes; exact H|]. split.
  - intros ->. apply schedule_ok_inv in H as (Hp & Hf & _ & n & _ & ->).
    repeat split; trivial; try apply Hp. eauto.
  - intros Hr. apply schedule_store in H as [->|(Hok & _)];
      [reflexivity|contradiction].
Qed.

Lemma scheduleAppointment_writes_only_on_ok_witness :
  scheduleAppointment usuarios agenda "lola" "abc" "ruiz" "16/03/2024" "09:00"
  = Some (out_of_range, agenda)
  /\ In out_of_range
       [ok; invalid_data; doctor_not_found; not_logged_in; out_of_range;
        slot_taken].
Proof.
  assert (H : scheduleAppointment usuarios agenda "lola" "abc" "ruiz"
                "16/03/2024" "09:00" = Some (out_of_range, agenda))
    by reflexivity.
  split; [exact H|].
  exact (proj1 (scheduleAppointment_writes_only_on_ok _ _ _ _ _ _ _ _ _ H)).
Defined.

(** X16: [scheduleAppointment] raises (from [int] in [_next_id]) exactly when
    the request passes every check, the slot is free and some stored id does
    not read as a number; on a collection built from the empty store by the
    two functions it always returns. *)
Theorem scheduleAppointment_raises users citas pn pw dn ds ts :
  (scheduleAppointment users citas pn pw dn ds ts = None
   <-> passes users pn pw dn ds ts
       /\ ~ In (dn, ds, ts) (scheduled_slots citas)
       /\ ~ ids_numeric citas)
  /\ (booked citas ->
      exists r citas', scheduleAppointment users citas pn pw dn ds ts
                       = Some (r, citas')).
Proof.
  assert (Hiff : scheduleAppointment users citas pn pw dn ds ts = None
                 <-> passes users pn pw dn ds ts
                     /\ ~ In (dn, ds, ts) (scheduled_slots citas)
                     /\ ~ ids_numeric citas).
  { split.
    - unfold scheduleAppointment. cbv zeta.
      destruct (existsb Py.blank _) eqn:Eb; [discriminate|].
      destruct (match findUser users dn with None => true | Some d => _ end)
        eqn:Ed; [discriminate|].
      destruct (not_authenticated _ pw) eqn:Ep; [discriminate|].
      destruct (negb (String.eqb (_valid_slot ds ts) ok)) eqn:Es;
        [discriminate|].
      destruct (existsb (collides dn ds ts) citas) eqn:Ec; [discriminate|].
      destruct (_next_id citas) as [s|] eqn:En; [discriminate|]. intros _.
      apply existsb_blank_false, List.Forall_Exists_neg in Eb.
      apply doctor_check_false in Ed. apply not_authenticated_false in Ep.
      apply negb_false_iff, String.eqb_eq in Es.
      split; [unfold passes; tauto|]. split.
      + rewrite <- collision_iff. congruence.
      + intros Hn. destruct (next_id_numeric citas Hn) as (n & Hs & _).
        congruence.
    - intros (Hp & Hf & Hn). rewrite schedule_passes by assumption.
      rewrite <- collision_iff in Hf.
      destruct (existsb _ citas); [congruence|].
      destruct (_next_id citas) as [s|] eqn:En; [|reflexivity].
      apply next_id_inv in En as (_ & _ & _ & Hnum). contradiction. }
  split; [exact Hiff|].
  intros Hb. apply booked_invariants in Hb as [_ Hnum].
  assert (Hret : scheduleAppointment users citas pn pw dn ds ts <> None).
  { intros E. apply Hiff in E. tauto. }
  destruct (scheduleAppointment users citas pn pw dn ds ts) as [[r c]|];
    [eauto|congruence].
Qed.

Lemma scheduleAppointment_raises_witness :
  scheduleAppointment usuarios
    [Appointment.Make "a1" "lola" "ruiz" "11/03/2024" "09:00" "scheduled"]
    "pepe" "clave" "ruiz" "15/03/2024" "08:00" = None
  /\ ~ ids_numeric
         [Appointment.Make "a1" "lola" "ruiz" "11/03/2024" "09:00" "scheduled"].
Proof.
  assert (H : scheduleAppointment usuarios
                [Appointment.Make "a1" "lola" "ruiz" "11/03/2024" "09:00"
                   "scheduled"]
                "pepe" "clave" "ruiz" "15/03/2024" "08:00" = None)
    by reflexivity.
  split; [exact H|].
  apply (proj1 (proj1 (scheduleAppointment_raises _ _ _ _ _ _ _)) H).
Defined.

(** ** What [cancelAppointment] changes *)

Lemma cancelled_from_refl pn l : Forall2 (cancelled_from pn) l l.
Proof. induction l; constructor; trivial. now left. Qed.

Lemma cancel_ok_inv users citas pn pw aid citas' :
  cancelAppointment users citas pn pw aid = (ok, citas') ->
  authenticated users pn pw
  /\ exists l1 c l2,
       citas = l1 ++ c :: l2 /\ cancel_target (str_id aid) pn c
       /\ Forall (fun x => ~ cancel_target (str_id aid) pn x) l1
       /\ citas' = l1 ++ Appointment.set_status c "cancelled" :: l2.
Proof.
  unfold cancelAppointment.
  destruct (not_authenticated _ pw) eqn:Ep; [discriminate|].
  destruct (cancel_loop _ pn citas) as [l|] eqn:E; [|discriminate].
  intros H. inversion H; subst. split; [now apply not_authenticated_false|].
  now apply cancel_loop_Some.
Qed.

Lemma cancel_not_ok users citas pn pw aid :
  fst (cancelAppointment users citas pn pw aid) <> ok ->
  snd (cancelAppointment users citas pn pw aid) = citas.
Proof.
  unfold cancelAppointment.
  destruct (not_authenticated _ pw); [reflexivity|].
  destruct (cancel_loop _ pn citas); [|reflexivity].
  simpl. congruence.
Qed.

(** X17: [cancelAppointment] never adds, removes or reorders appointments and
    never changes anything but a status: each stored appointment is either
    left as it is or, if it is a scheduled appointment of the requesting
    patient, marked cancelled.  On [ok] exactly one appointment stops being
    scheduled; on any other answer the collection is unchanged. *)
Theorem cancelAppointment_transition users citas pn pw aid :
  let r := cancelAppointment users citas pn pw aid in
  Forall2 (cancelled_from pn) citas (snd r)
  /\ (fst r = ok ->
      S (length (List.filter is_scheduled (snd r)))
      = length (List.filter is_scheduled citas))
  /\ (fst r <> ok -> snd r = citas).
Proof.
  cbv zeta. split; [|split; [|apply cancel_not_ok]].
  - destruct (cancel_store users citas pn pw aid)
      as [->|(l1 & c & l2 & -> & (_ & Hp & Hs) & ->)];
      [apply cancelled_from_refl|].
    apply Forall2_app; [apply cancelled_from_refl|].
    constructor; [|apply cancelled_from_refl]. right. auto.
  - destruct (cancelAppointment users citas pn pw aid) as [r l] eqn:E.
    simpl. intros ->.
    apply cancel_ok_inv in E as (_ & l1 & c & l2 & -> & (_ & _ & Hs) & _ & ->).
    destruct (scheduled_slots_cancelled l1 c l2 Hs) as [E1 E2].
    apply (f_equal (@length _)) in E1, E2. unfold scheduled_slots in E1, E2.
    rewrite ?length_app in E1, E2. cbn [length] in E1.
    rewrite ?length_map in E1, E2. lia.
Qed.

(** X18: in a collection where no two appointments share an id, a cancel
    request that was answered [ok] is answered [not_found] when repeated, and
    the repeat changes nothing. *)
Theorem cancelAppointment_twice users citas pn pw aid citas' :
  List.NoDup (map Appointment.id citas) ->
  cancelAppointment users citas pn pw aid = (ok, citas') ->
  cancelAppointment users citas' pn pw aid = (not_found, citas').
Proof.
  intros Hnd H.
  apply cancel_ok_inv in H as (Hauth & l1 & c & l2 & -> & Hc & Hl1 & ->).
  unfold cancelAppointment.
  apply not_authenticated_false in Hauth. rewrite Hauth.
  assert (Hnone : cancel_loop (str_id aid) pn
                    (l1 ++ Appointment.set_status c "cancelled" :: l2) = None).
  { apply cancel_loop_None. intros Hex.
    apply List.Exists_exists in Hex as (x & Hx & Hid & Hpat & Hst).
    apply in_app_or in Hx as [Hx|[<-|Hx]].
    - rewrite List.Forall_forall in Hl1. apply (Hl1 x Hx).
      repeat split; trivial.
    - simpl in Hst. discriminate.
    - rewrite map_app in Hnd. apply NoDup_app_remove_l in Hnd.
      simpl in Hnd. inversion Hnd as [|? ? Hnotin _]; subst.
      apply Hnotin. destruct Hc as (Hcid & _). rewrite Hcid, <- Hid.
      now apply in_map. }
  now rewrite Hnone.
Qed.

Lemma cancelAppointment_twice_witness :
  List.NoDup (map Appointment.id agenda)
  /\ cancelAppointment usuarios agenda "pepe" "clave" (JInt 5)
     = (ok, [ Appointment.Make "1" "lola" "ruiz" "11/03/2024" "09:00" "scheduled";
              Appointment.Make "2" "lola" "soto" "12/03/2024" "10:30" "cancelled";
              Appointment.Make "5" "pepe" "ruiz" "13/03/2024" "08:00" "cancelled" ])
  /\ cancelAppointment usuarios
       [ Appointment.Make "1" "lola" "ruiz" "11/03/2024" "09:00" "scheduled";
         Appointment.Make "2" "lola" "soto" "12/03/2024" "10:30" "cancelled";
         Appointment.Make "5" "pepe" "ruiz" "13/03/2024" "08:00" "cancelled" ]
       "pepe" "clave" (JInt 5)
     = (not_found,
        [ Appointment.Make "1" "lola" "ruiz" "11/03/2024" "09:00" "scheduled";
          Appointment.Make "2" "lola" "soto" "12/03/2024" "10:30" "cancelled";
          Appointment.Make "5" "pepe" "ruiz" "13/03/2024" "08:00" "cancelled" ]).
Proof.
  assert (Hnd : List.NoDup (map Appointment.id agenda)).
  { apply NoDup_ListNoDup. refine (bool_decide_unpack _ _). vm_compute. exact I. }
  assert (H : cancelAppointment usuarios agenda "pepe" "clave" (JInt 5)
     = (ok, [ Appointment.Make "1" "lola" "ruiz" "11/03/2024" "09:00" "scheduled";
              Appointment.Make "2" "lola" "soto" "12/03/2024" "10:30" "cancelled";
              Appointment.Make "5" "pepe" "ruiz" "13/03/2024" "08:00" "cancelled" ]))
    by reflexivity.
  split; [exact Hnd|]. split; [exact H|].
  exact (cancelAppointment_twice usuarios agenda "pepe" "clave" (JInt 5) _ Hnd H).
Defined.

(** ** [listAppointments] *)

Lemma involvesb_iff name c : involvesb name c = true <-> involves name c.
Proof.
  unfold involvesb, involves. now rewrite orb_true_iff, !String.eqb_eq.
Qed.

Lemma listAppointments_authenticated users citas name password :
  authenticated users name password ->
  listAppointments users citas name password
  = inr (List.filter (involvesb name) citas).
Proof.
  intros H. apply not_authenticated_false in H.
  unfold listAppointments. now rewrite H.
Qed.

(** X19: [listAppointments] answers [not_logged_in] to a user who is absent,
    gives a wrong password or has no open session; to an authenticated user
    it returns, in stored order, exactly the stored appointments in which
    that user is the patient or the doctor, whatever their status, and no
    appointment of anybody else. *)
Theorem listAppointments_own users citas name password :
  (login_fails users name password ->
   listAppointments users citas name password = inl not_logged_in)
  /\ (authenticated users name password ->
      exists l,
        listAppointments users citas name password = inr l
        /\ sublist l citas
        /\ forall c, In c l <-> In c citas /\ involves name c).
Proof.
  split.
  - intros H. apply not_authenticated_true in H.
    unfold listAppointments. now rewrite H.
  - intros H. exists (List.filter (involvesb name) citas).
    split; [now apply listAppointments_authenticated|]. split.
    + clear H. induction citas as [|c l IH]; simpl; [constructor|].
      destruct (involvesb name c); [now apply sublist_skip|now apply sublist_cons].
    + intros c. now rewrite filter_In, involvesb_iff.
Qed.

Lemma listAppointments_own_witness :
  authenticated usuarios "lola" "abc"
  /\ exists l,
       listAppointments usuarios agenda "lola" "abc" = inr l
       /\ sublist l agenda
       /\ forall c, In c l <-> In c agenda /\ involves "lola" c.
Proof.
  assert (H : authenticated usuarios "lola" "abc").
  { exists (User.Make "lola" (Some "abc") (Some "patient") (Some true)).
    repeat split; reflexivity. }
  split; [exact H|].
  exact (proj2 (listAppointments_own usuarios agenda "lola" "abc") H).
Defined.

(** X20: after a booking answered [ok], the new appointment is the last
    entry of the listing of its patient and of its doctor, after the entries
    they had before; the listing of every other user is unchanged. *)
Theorem schedule_then_list users citas pn pw dn ds ts citas' name password :
  scheduleAppointment users citas pn pw dn ds ts = Some (ok, citas') ->
  authenticated users name password ->
  exists before new_id,
    listAppointments users citas name password = inr before
    /\ (name = pn \/ name = dn ->
        listAppointments users citas' name password
        = inr (before ++ [Appointment.Make new_id pn dn ds ts "scheduled"]))
    /\ (name <> pn -> name <> dn ->
        listAppointments users citas' name password = inr before).
Proof.
  intros H Hauth.
  apply schedule_ok_inv in H as (_ & _ & _ & n & _ & ->).
  exists (List.filter (involvesb name) citas), (Py.str n).
  rewrite !listAppointments_authenticated by assumption.
  rewrite List.filter_app. cbn [List.filter].
  split; [reflexivity|]. split.
  - intros Hn.
    assert (E : involvesb name
                  (Appointment.Make (Py.str n) pn dn ds ts "scheduled") = true).
    { apply involvesb_iff. unfold involves. simpl. intuition congruence. }
    now rewrite E.
  - intros Hp Hd.
    assert (E : involvesb name
                  (Appointment.Make (Py.str n) pn dn ds ts "scheduled") = false).
    { unfold involvesb. simpl.
      apply orb_false_iff. split; apply String.eqb_neq; congruence. }
    rewrite E. now rewrite app_nil_r.
Qed.

Lemma schedule_then_list_witness :
  scheduleAppointment usuarios agenda "pepe" "clave" "ruiz" "15/03/2024" "08:00"
  = Some (ok, agenda ++ [Appointment.Make "6" "pepe" "ruiz" "15/03/2024"
                           "08:00" "scheduled"])
  /\ authenticated usuarios "pepe" "clave"
  /\ exists before new_id,
       listAppointments usuarios agenda "pepe" "clave" = inr before
       /\ listAppointments usuarios
            (agenda ++ [Appointment.Make "6" "pepe" "ruiz" "15/03/2024"
                          "08:00" "scheduled"]) "pepe" "clave"
          = inr (before ++ [Appointment.Make new_id "pepe" "ruiz" "15/03/2024"
                              "08:00" "scheduled"]).
Proof.
  assert (H : scheduleAppointment usuarios agenda "pepe" "clave" "ruiz"
                "15/03/2024" "08:00"
              = Some (ok, agenda ++ [Appointment.Make "6" "pepe" "ruiz"
                                       "15/03/2024" "08:00" "scheduled"]))
    by reflexivity.
  assert (Ha : authenticated usuarios "pepe" "clave").
  { exists (User.Make "pepe" (Some "clave") (Some "patient") (Some true)).
    repeat split; reflexivity. }
  split; [exact H|]. split; [exact Ha|].
  destruct (schedule_then_list _ _ _ _ _ _ _ _ "pepe" "clave" H Ha)
    as (before & new_id & Hb & Hown & _).
  exists before, new_id. split; [exact Hb|]. apply Hown. now left.
Defined.

(** X21: a cancelled appointment stays in the listing of its patient: after
    a cancel request answered [ok], the patient's listing has the same
    entries in the same order, one of them now marked cancelled. *)
Theorem cancel_then_list users citas pn pw aid citas' :
  cancelAppointment users citas pn pw aid = (ok, citas') ->
  exists before after,
    listAppointments users citas pn pw = inr before
    /\ listAppointments users citas' pn pw = inr after
    /\ Forall2 (cancelled_from pn) before after
    /\ exists c, In c before /\ Appointment.status c = "scheduled"
                 /\ In (Appointment.set_status c "cancelled") after.
Proof.
  intros H.
  apply cancel_ok_inv in H
    as (Hauth & l1 & c & l2 & -> & (Hid & Hp & Hs) & _ & ->).
  do 2 eexists. rewrite !listAppointments_authenticated by assumption.
  split; [reflexivity|]. split; [reflexivity|].
  rewrite !List.filter_app. cbn [List.filter].
  assert (E : involvesb pn c = true)
    by (apply involvesb_iff; now left).
  assert (E' : involvesb pn (Appointment.set_status c "cancelled") = true)
    by (apply involvesb_iff; now left).
  rewrite E, E'. split.
  - apply Forall2_app; [apply cancelled_from_refl|].
    constructor; [|apply cancelled_from_refl]. right. auto.
  - exists c. rewrite !in_app_iff. simpl. auto.
Qed.

Lemma cancel_then_list_witness :
  cancelAppointment usuarios agenda "pepe" "clave" (JStr "5")
  = (ok, [ Appointment.Make "1" "lola" "ruiz" "11/03/2024" "09:00" "scheduled";
           Appointment.Make "2" "lola" "soto" "12/03/2024" "10:30" "cancelled";
           Appointment.Make "5" "pepe" "ruiz" "13/03/2024" "08:00" "cancelled" ])
  /\ exists before after,
       listAppointments usuarios agenda "pepe" "clave" = inr before
       /\ listAppointments usuarios
            [ Appointment.Make "1" "lola" "ruiz" "11/03/2024" "09:00" "scheduled";
              Appointment.Make "2" "lola" "soto" "12/03/2024" "10:30" "cancelled";
              Appointment.Make "5" "pepe" "ruiz" "13/03/2024" "08:00" "cancelled" ]
            "pepe" "clave" = inr after
       /\ Forall2 (cancelled_from "pepe") before after.
Proof.
  assert (H : cancelAppointment usuarios agenda "pepe" "clave" (JStr "5")
     = (ok, [ Appointment.Make "1" "lola" "ruiz" "11/03/2024" "09:00" "scheduled";
              Appointment.Make "2" "lola" "soto" "12/03/2024" "10:30" "cancelled";
              Appointment.Make "5" "pepe" "ruiz" "13/03/2024" "08:00" "cancelled" ]))
    by reflexivity.
  split; [exact H|].
  destruct (cancel_then_list _ _ _ _ _ _ H) as (b & a & Hb & Ha & Hf & _).
  exists b, a. auto.
Defined.

(** ** The session gate and the stored appointments *)

(** X22: for a user who is absent, gives a wrong password or has no open
    session, none of the three clinical functions reads or changes the
    appointments: [scheduleAppointment] returns without [ok] and writes
    nothing, [listAppointments] and [cancelAppointment] answer
    [not_logged_in]. *)
Theorem session_gate users citas pn pw :
  login_fails users pn pw ->
  (forall dn ds ts,
      exists r, scheduleAppointment users citas pn pw dn ds ts = Some (r, citas)
                /\ In r [invalid_data; doctor_not_found; not_logged_in])
  /\ listAppointments users citas pn pw = inl not_logged_in
  /\ (forall aid,
        cancelAppointment users citas pn pw aid = (not_logged_in, citas)).
Proof.
  intros H. apply not_authenticated_true in H. split; [|split].
  - intros dn ds ts. unfold scheduleAppointment. cbv zeta.
    destruct (existsb Py.blank _); [eexists; split; [reflexivity|simpl; auto]|].
    destruct (match findUser users dn with None => true | Some d => _ end);
      [eexists; split; [reflexivity|simpl; auto]|].
    rewrite H. eexists; split; [reflexivity|simpl; auto].
  - unfold listAppointments. now rewrite H.
  - intros aid. unfold cancelAppointment. now rewrite H.
Qed.

Lemma session_gate_witness :
  login_fails usuarios "ruiz" "x1"
  /\ cancelAppointment usuarios agenda "ruiz" "x1" (JStr "1")
     = (not_logged_in, agenda).
Proof.
  assert (H : login_fails usuarios "ruiz" "x1").
  { right. exists (User.Make "ruiz" (Some "x1") (Some "doctor") None).
    split; [reflexivity|]. right. discriminate. }
  split; [exact H|].
  exact (proj2 (proj2 (session_gate usuarios agenda "ruiz" "x1" H)) (JStr "1")).
Defined.

Lemma booked_stored_ok citas : booked citas -> Forall stored_ok citas.
Proof.
  induction 1 as [|users citas pn pw dn ds ts r citas' _ IH H
                  |users citas pn pw aid _ IH]; [constructor| |].
  - pose proof H as H'.
    apply schedule_store in H' as [->|(-> & _ & n & _ & Hc)]; trivial.
    apply schedule_ok_inv in H as ((Hb & _ & _ & Hs) & _ & _ & _).
    rewrite Hc. apply Forall_app. split; trivial.
    constructor; [|constructor]. apply not_blank5 in Hb.
    unfold stored_ok. simpl. tauto.
  - destruct (cancel_store users citas pn pw aid)
      as [->|(l1 & c & l2 & -> & _ & ->)]; trivial.
    rewrite Forall_app in *. destruct IH as [H1 H2]. split; trivial.
    inversion H2 as [|? ? Hc Hl2]; subst. constructor; trivial.
    unfold stored_ok in *. simpl. tauto.
Qed.

(** X23: every appointment of a collection that the two functions build from
    the empty store has a date and time that [_valid_slot] accepts (Monday
    to Friday, 08:00 to 16:00, on the hour or the half hour), a patient and
    a doctor that are not blank, and a status that is "scheduled" or
    "cancelled". *)
Theorem booked_appointments_valid citas c :
  booked citas -> In c citas ->
  _valid_slot (Appointment.date c) (Appointment.time c) = ok
  /\ (exists fecha hora,
        Datetime.strptime_date (Appointment.date c) = Some fecha
        /\ Datetime.strptime_time (Appointment.time c) = Some hora
        /\ 0 <= Datetime.weekday fecha <= 4
        /\ 480 <= minutes_of hora <= 960
        /\ (Datetime.minute hora = 0 \/ Datetime.minute hora = 30))
  /\ ~ whitespace_only (Appointment.patient c)
  /\ ~ whitespace_only (Appointment.doctor c)
  /\ (Appointment.status c = "scheduled" \/ Appointment.status c = "cancelled").
Proof.
  intros Hb Hin. apply booked_stored_ok in Hb.
  rewrite List.Forall_forall in Hb.
  destruct (Hb c Hin) as (Hs & Hp & Hd & Hst).
  split; [exact Hs|]. split; [|tauto].
  destruct (Datetime.strptime_date (Appointment.date c)) as [fecha|] eqn:Ed;
    [|unfold _valid_slot in Hs; rewrite Ed in Hs; discriminate].
  destruct (Datetime.strptime_time (Appointment.time c)) as [hora|] eqn:Et;
    [|unfold _valid_slot in Hs; rewrite Ed, Et in Hs; discriminate].
  exists fecha, hora. split; [reflexivity|]. split; [reflexivity|].
  rewrite (valid_slot_parsed _ _ _ _ Ed Et) in Hs.
  pose proof (weekday_range fecha) as Hw.
  destruct (_ || _ || _ || _) eqn:E; [discriminate|].
  rewrite !orb_false_iff, negb_false_iff, orb_true_iff, !Z.ltb_ge, !Z.eqb_eq
    in E. lia.
Qed.

Lemma booked_appointments_valid_witness :
  booked [Appointment.Make "1" "pepe" "ruiz" "15/03/2024" "08:00" "scheduled"]
  /\ _valid_slot "15/03/2024" "08:00" = ok.
Proof.
  assert (H : booked [Appointment.Make "1" "pepe" "ruiz" "15/03/2024" "08:00"
                        "scheduled"]).
  { apply (booked_schedule usuarios [] "pepe" "clave" "ruiz" "15/03/2024"
             "08:00" ok); [constructor | reflexivity]. }
  split; [exact H|].
  assert (Hin : In (Appointment.Make "1" "pepe" "ruiz" "15/03/2024" "08:00"
                      "scheduled")
                   [Appointment.Make "1" "pepe" "ruiz" "15/03/2024" "08:00"
                      "scheduled"]) by (left; reflexivity).
  exact (proj1 (booked_appointments_valid _ _ H Hin)).
Defined.

Lemma registerAffiliate_writes_only_on_ok_witness :
  fst (registerAffiliate [ana] "1010" "Zoe" "Rey" "01/01/1950" "B" "F"
         "zoe@eps.co") <> ok
  /\ snd (registerAffiliate [ana] "1010" "Zoe" "Rey" "01/01/1950" "B" "F"
            "zoe@eps.co") = [ana].
Proof.
  assert (H : fst (registerAffiliate [ana] "1010" "Zoe" "Rey" "01/01/1950" "B"
                     "F" "zoe@eps.co") <> ok) by (vm_compute; discriminate).
  split; [exact H|].
  exact (proj2 (proj2 (registerAffiliate_writes_only_on_ok [ana] "1010" "Zoe"
                         "Rey" "01/01/1950" "B" "F" "zoe@eps.co")) H).
Defined.

Lemma findUser_first_witness :
  findUser (usuarios ++ [User.Make "lola" (Some "otra") (Some "doctor")
                           (Some true)]) "lola"
  = Some (User.Make "lola" (Some "abc") (Some "patient") (Some true)).
Proof.
  apply (proj1 (proj2 (findUser_first _ "lola"))
           [ User.Make "pepe" (Some "clave") (Some "patient") (Some true);
             User.Make "ruiz" (Some "x1") (Some "doctor") None;
             User.Make "soto" (Some "x2") (Some "doctor") (Some false) ]
           (User.Make "lola" (Some "abc") (Some "patient") (Some true))
           [User.Make "lola" (Some "otra") (Some "doctor") (Some true)]).
  - reflexivity.
  - reflexivity.
  - repeat (constructor; [simpl; discriminate|]). constructor.
Defined.

Lemma cancelAppointment_transition_witness :
  fst (cancelAppointment usuarios agenda "pepe" "clave" (JStr "5")) = ok
  /\ S (length (List.filter is_scheduled
                  (snd (cancelAppointment usuarios agenda "pepe" "clave"
                          (JStr "5")))))
     = length (List.filter is_scheduled agenda).
Proof.
  assert (H : fst (cancelAppointment usuarios agenda "pepe" "clave" (JStr "5"))
              = ok) by reflexivity.
  split; [exact H|].
  exact (proj1 (proj2 (cancelAppointment_transition usuarios agenda "pepe"
                         "clave" (JStr "5"))) H).
Defined.

(** ** Dates and times written with all their digits *)

Lemma digit_cases c :
  Py.isdigit c = true ->
  In c ["0"; "1"; "2"; "3"; "4"; "5"; "6"; "7"; "8"; "9"]%char.
Proof.
  destruct c as [[] [] [] [] [] [] [] []]; intros H; try discriminate H;
    simpl; auto 11.
Qed.

Lemma re_d_fixed {A} a b rest (f : Z -> string -> list A) :
  Py.isdigit a = true -> Py.isdigit b = true ->
  ('(d, s1) ← Datetime.re_d (String a (String b (String "/" rest)));
   s2 ← Datetime.lit "/" s1; f d s2)
  = if (1 <=? num2 a b) && (num2 a b <=? 31) then f (num2 a b) rest else [].
Proof.
  intros Ha Hb. apply digit_cases in Ha, Hb. simpl in Ha, Hb.
  repeat (destruct Ha as [<-|Ha]; [| ]); try contradiction;
  repeat (destruct Hb as [<-|Hb]; [| ]); try contradiction;
  simpl; rewrite ?app_nil_r; reflexivity.
Qed.

Lemma re_m_fixed {A} a b rest (f : Z -> string -> list A) :
  Py.isdigit a = true -> Py.isdigit b = true ->
  ('(m, s1) ← Datetime.re_m (String a (String b (String "/" rest)));
   s2 ← Datetime.lit "/" s1; f m s2)
  = if (1 <=? num2 a b) && (num2 a b <=? 12) then f (num2 a b) rest else [].
Proof.
  intros Ha Hb. apply digit_cases in Ha, Hb. simpl in Ha, Hb.
  repeat (destruct Ha as [<-|Ha]; [| ]); try contradiction;
  repeat (destruct Hb as [<-|Hb]; [| ]); try contradiction;
  simpl; rewrite ?app_nil_r; reflexivity.
Qed.

Lemma re_Y_fixed a b c d :
  Py.isdigit a = true -> Py.isdigit b = true ->
  Py.isdigit c = true -> Py.isdigit d = true ->
  Datetime.re_Y (String a (String b (String c (String d EmptyString))))
  = [(100 * num2 a b + num2 c d, EmptyString)].
Proof.
  intros Ha Hb Hc Hd. unfold Datetime.re_Y, Datetime.two.
  rewrite Ha, Hb. cbn. rewrite Hc, Hd. reflexivity.
Qed.

Lemma re_H_fixed {A} a b rest (f : Z -> string -> list A) :
  Py.isdigit a = true -> Py.isdigit b = true ->
  ('(h, s1) ← Datetime.re_H (String a (String b (String ":" rest)));
   s2 ← Datetime.lit ":" s1; f h s2)
  = if num2 a b <=? 23 then f (num2 a b) rest else [].
Proof.
  intros Ha Hb. apply digit_cases in Ha, Hb. simpl in Ha, Hb.
  repeat (destruct Ha as [<-|Ha]; [| ]); try contradiction;
  repeat (destruct Hb as [<-|Hb]; [| ]); try contradiction;
  simpl; rewrite ?app_nil_r; reflexivity.
Qed.

Lemma re_M_fixed a b h :
  Py.isdigit a = true -> Py.isdigit b = true ->
  match ('(m, s3) ← Datetime.re_M (String a (String b EmptyString));
         [(h, m, s3)]) with
  | (h', m, EmptyString) :: _ => Some (Datetime.Time h' m)
  | _ => None
  end
  = if num2 a b <=? 59 then Some (Datetime.Time h (num2 a b)) else None.
Proof.
  intros Ha Hb. apply digit_cases in Ha, Hb. simpl in Ha, Hb.
  repeat (destruct Ha as [<-|Ha]; [| ]); try contradiction;
  repeat (destruct Hb as [<-|Hb]; [| ]); try contradiction;
  reflexivity.
Qed.

Lemma strptime_date_fixed d1 d0 m1 m0 y3 y2 y1 y0 :
  Forall (fun c => Py.isdigit c = true) [d1; d0; m1; m0; y3; y2; y1; y0] ->
  Datetime.strptime_date (fixed_date d1 d0 m1 m0 y3 y2 y1 y0)
  = if Datetime.valid_date (100 * num2 y3 y2 + num2 y1 y0) (num2 m1 m0)
         (num2 d1 d0)
    then Some (Datetime.Date (100 * num2 y3 y2 + num2 y1 y0) (num2 m1 m0)
                 (num2 d1 d0))
    else None.
Proof.
  intros H.
  repeat match goal with
         | H : Forall _ (_ :: _) |- _ =>
             let H1 := fresh "Hd" in apply Forall_cons in H as [H1 H]
         end.
  unfold Datetime.strptime_date, Datetime.match_date, fixed_date.
  rewrite re_d_fixed by assumption.
  destruct ((1 <=? num2 d1 d0) && (num2 d1 d0 <=? 31)) eqn:Ed.
  - rewrite re_m_fixed by assumption.
    destruct ((1 <=? num2 m1 m0) && (num2 m1 m0 <=? 12)) eqn:Em.
    + rewrite re_Y_fixed by assumption. reflexivity.
    + unfold Datetime.valid_date.
      destruct (1 <=? num2 m1 m0), (num2 m1 m0 <=? 12); try discriminate;
        now rewrite ?andb_false_r.
  - unfold Datetime.valid_date.
    assert (Hdim : Datetime.days_in_month (100 * num2 y3 y2 + num2 y1 y0)
                     (num2 m1 m0) <= 31).
    { unfold Datetime.days_in_month.
      repeat match goal with |- context [if ?b then _ else _] => destruct b end;
        lia. }
    destruct (Z.leb_spec 1 (num2 d1 d0)), (Z.leb_spec (num2 d1 d0) 31);
      try discriminate; rewrite ?andb_false_r; trivial.
    destruct (Z.leb_spec (num2 d1 d0)
                (Datetime.days_in_month (100 * num2 y3 y2 + num2 y1 y0)
                   (num2 m1 m0))); [lia|].
    now rewrite ?andb_false_r.
Qed.

Lemma strptime_time_fixed h1 h0 m1 m0 :
  Forall (fun c => Py.isdigit c = true) [h1; h0; m1; m0] ->
  Datetime.strptime_time (fixed_time h1 h0 m1 m0)
  = if (num2 h1 h0 <=? 23) && (num2 m1 m0 <=? 59)
    then Some (Datetime.Time (num2 h1 h0) (num2 m1 m0)) else None.
Proof.
  intros H.
  repeat match goal with
         | H : Forall _ (_ :: _) |- _ =>
             let H1 := fresh "Hd" in apply Forall_cons in H as [H1 H]
         end.
  unfold Datetime.strptime_time, Datetime.match_time, fixed_time.
  rewrite re_H_fixed by assumption.
  destruct (num2 h1 h0 <=? 23); [|reflexivity].
  rewrite re_M_fixed by assumption. reflexivity.
Qed.

(** X24: on a text of the shape dd/mm/yyyy made of eight digits,
    [convertir_fecha] succeeds exactly when the three numbers are a calendar
    date (a year from 1 to 9999, a month from 1 to 12, a day that the month
    of that year has), and then returns that date; otherwise it raises. *)
Theorem convertir_fecha_fixed_width d1 d0 m1 m0 y3 y2 y1 y0 :
  Forall (fun c => Py.isdigit c = true) [d1; d0; m1; m0; y3; y2; y1; y0] ->
  let D := num2 d1 d0 in
  let M := num2 m1 m0 in
  let Y := 100 * num2 y3 y2 + num2 y1 y0 in
  (Datetime.valid_date Y M D = true ->
   convertir_fecha (fixed_date d1 d0 m1 m0 y3 y2 y1 y0)
   = Some (Datetime.Date Y M D))
  /\ (Datetime.valid_date Y M D = false ->
      convertir_fecha (fixed_date d1 d0 m1 m0 y3 y2 y1 y0) = None).
Proof.
  intros H. cbv zeta. unfold convertir_fecha.
  rewrite strptime_date_fixed by assumption.
  split; intros ->; reflexivity.
Qed.

Lemma convertir_fecha_fixed_width_witness :
  Forall (fun c => Py.isdigit c = true)
    ["2"; "9"; "0"; "2"; "2"; "0"; "2"; "3"]%char
  /\ convertir_fecha "29/02/2023" = None.
Proof.
  assert (H : Forall (fun c => Py.isdigit c = true)
                ["2"; "9"; "0"; "2"; "2"; "0"; "2"; "3"]%char)
    by (repeat constructor).
  split; [exact H|].
  exact (proj2 (convertir_fecha_fixed_width "2" "9" "0" "2" "2" "0" "2" "3" H)
           eq_refl).
Defined.

(** X25: on a date of the shape dd/mm/yyyy and a time of the shape HH:MM made
    of digits, [_valid_slot] answers [invalid_data] exactly when the date is
    not a calendar date, the hour is above 23 or the minute is above 59;
    otherwise it answers [ok] for Monday to Friday from 08:00 to 16:00 on
    the hour or the half hour, and [out_of_range] for the rest. *)
Theorem valid_slot_fixed_width d1 d0 m1 m0 y3 y2 y1 y0 h1 h0 n1 n0 :
  Forall (fun c => Py.isdigit c = true)
    [d1; d0; m1; m0; y3; y2; y1; y0; h1; h0; n1; n0] ->
  let fecha :=
    Datetime.Date (100 * num2 y3 y2 + num2 y1 y0) (num2 m1 m0) (num2 d1 d0) in
  let hora := Datetime.Time (num2 h1 h0) (num2 n1 n0) in
  let parses :=
    Datetime.valid_date (Datetime.year fecha) (Datetime.month fecha)
      (Datetime.day fecha)
    && (Datetime.hour hora <=? 23) && (Datetime.minute hora <=? 59) in
  let r := _valid_slot (fixed_date d1 d0 m1 m0 y3 y2 y1 y0)
             (fixed_time h1 h0 n1 n0) in
  (r = invalid_data <-> parses = false)
  /\ (r = ok <->
      parses = true /\ Datetime.weekday fecha <= 4
      /\ 480 <= minutes_of hora <= 960
      /\ (Datetime.minute hora = 0 \/ Datetime.minute hora = 30)).
Proof.
  intros H. cbv zeta.
  assert (Hdate : Forall (fun c => Py.isdigit c = true)
                    [d1; d0; m1; m0; y3; y2; y1; y0]).
  { rewrite List.Forall_forall in *. intros c Hc. apply H.
    simpl in *. tauto. }
  assert (Htime : Forall (fun c => Py.isdigit c = true) [h1; h0; n1; n0]).
  { rewrite List.Forall_forall in *. intros c Hc. apply H.
    simpl in *. tauto. }
  pose proof (strptime_date_fixed _ _ _ _ _ _ _ _ Hdate) as Ed.
  pose proof (strptime_time_fixed _ _ _ _ Htime) as Et.
  cbn [Datetime.year Datetime.month Datetime.day Datetime.hour Datetime.minute].
  destruct (Datetime.valid_date _ _ _) eqn:Ev.
  - destruct ((num2 h1 h0 <=? 23) && (num2 n1 n0 <=? 59)) eqn:Eh.
    + rewrite (valid_slot_parsed _ _ _ _ Ed Et).
      pose proof (weekday_range
                    (Datetime.Date (100 * num2 y3 y2 + num2 y1 y0)
                       (num2 m1 m0) (num2 d1 d0))) as Hw.
      apply andb_true_iff in Eh as [Eh1 Eh2]. rewrite Eh1, Eh2.
      cbn [andb Datetime.minute].
      destruct (_ || _ || _ || _) eqn:E.
      * split; [split; discriminate|]. split; [discriminate|].
        intros (_ & H1 & H2 & H3). exfalso.
        rewrite !orb_true_iff, negb_true_iff, orb_false_iff, !Z.ltb_lt,
          !Z.eqb_neq in E. cbn [Datetime.minute] in E. lia.
      * split; [split; discriminate|]. split; [|reflexivity]. intros _.
        rewrite !orb_false_iff, negb_false_iff, orb_true_iff, !Z.ltb_ge,
          !Z.eqb_eq in E. cbn [Datetime.minute] in E.
        split; [reflexivity|]. lia.
    + unfold _valid_slot. rewrite Ed, Et.
      rewrite andb_true_l, Eh.
      split; [split; reflexivity|]. split; [discriminate|].
      intros [Hf _]. discriminate.
  - unfold _valid_slot. rewrite Ed. cbn [andb].
    split; [split; reflexivity|]. split; [discriminate|].
    intros [Hf _]. discriminate.
Qed.

Lemma valid_slot_fixed_width_witness :
  Forall (fun c => Py.isdigit c = true)
    ["1"; "8"; "0"; "3"; "2"; "0"; "2"; "4"; "2"; "4"; "0"; "0"]%char
  /\ _valid_slot "18/03/2024" "24:00" = invalid_data.
Proof.
  assert (H : Forall (fun c => Py.isdigit c = true)
                ["1"; "8"; "0"; "3"; "2"; "0"; "2"; "4"; "2"; "4"; "0"; "0"]%char)
    by (repeat constructor).
  split; [exact H|].
  exact (proj2 (proj1 (valid_slot_fixed_width "1" "8" "0" "3" "2" "0" "2" "4"
                         "2" "4" "0" "0" H)) eq_refl).
Defined.

(** ** The stored date and time strings *)

(** X26: on the stored strings, at most one scheduled appointment has a given
    triple of doctor, date string and time string.  From a collection with
    that property, [scheduleAppointment] and [cancelAppointment] both give a
    collection that has it, and so does every collection the two functions
    build from the empty store.  A request that passes the earlier checks is
    answered [slot_taken] when a scheduled appointment stores the same three
    strings.  A request that passes the checks for a free triple, on numeric
    stored ids, is answered [ok]; a second request with the same strings, by
    any logged-in patient, is then answered [slot_taken]; and after the first
    appointment is cancelled under the id it was given, that second request
    is answered [ok]. *)
Theorem slot_invariant_preserved users citas :
  slot_invariant citas ->
  (forall pn pw dn ds ts r citas',
      scheduleAppointment users citas pn pw dn ds ts = Some (r, citas') ->
      slot_invariant citas')
  /\ (forall pn pw aid,
        slot_invariant (snd (cancelAppointment users citas pn pw aid)))
  /\ (forall pn pw dn ds ts,
        passes users pn pw dn ds ts ->
        In (dn, ds, ts) (scheduled_slots citas) ->
        scheduleAppointment users citas pn pw dn ds ts
        = Some (slot_taken, citas))
  /\ (forall p1 pw1 p2 pw2 dn ds ts,
        passes users p1 pw1 dn ds ts ->
        ~ In (dn, ds, ts) (scheduled_slots citas) ->
        ids_numeric citas ->
        ~ whitespace_only p2 -> ~ whitespace_only pw2 ->
        authenticated users p2 pw2 ->
        exists n m,
          let citas1 :=
            citas ++ [Appointment.Make (Py.str n) p1 dn ds ts "scheduled"] in
          let citas2 :=
            citas ++ [Appointment.Make (Py.str n) p1 dn ds ts "cancelled"] in
          scheduleAppointment users citas p1 pw1 dn ds ts = Some (ok, citas1)
          /\ scheduleAppointment users citas1 p2 pw2 dn ds ts
             = Some (slot_taken, citas1)
          /\ (forall aid, str_id aid = Py.str n ->
                cancelAppointment users citas1 p1 pw1 aid = (ok, citas2))
          /\ scheduleAppointment users citas2 p2 pw2 dn ds ts
             = Some (ok, citas2 ++ [Appointment.Make (Py.str m) p2 dn ds ts
                                      "scheduled"]))
  /\ (forall built, booked built -> slot_invariant built).
Proof.
  intros Hinv. split; [|split; [|split; [|split]]].
  - intros. eapply slot_invariant_schedule; eassumption.
  - intros. now apply slot_invariant_cancel.
  - intros. now apply schedule_taken.
  - intros p1 pw1 p2 pw2 dn ds ts Hp1 Hfree Hnum Hp2 Hpw2 Hauth2.
    destruct (schedule_free users citas p1 pw1 dn ds ts Hp1 Hfree Hnum)
      as (n & Hn & H1).
    pose proof Hp1 as (Hb & Hdoc & Hauth1 & Hslot).
    assert (Hpass2 : passes users p2 pw2 dn ds ts).
    { unfold passes. rewrite not_blank5 in *. tauto. }
    assert (Hnum2 : ids_numeric
              (citas ++ [Appointment.Make (Py.str n) p1 dn ds ts "cancelled"])).
    { apply ids_numeric_app; trivial. simpl. rewrite int_str. discriminate. }
    assert (Hfree2 : ~ In (dn, ds, ts)
              (scheduled_slots
                 (citas ++ [Appointment.Make (Py.str n) p1 dn ds ts "cancelled"]))).
    { rewrite scheduled_slots_app, in_app_iff. intros [H|H]; [tauto|].
      exact H. }
    destruct (schedule_free users _ p2 pw2 dn ds ts Hpass2 Hfree2 Hnum2)
      as (m & _ & Hm).
    exists n, m. cbv zeta. split; [exact H1|]. split; [|split].
    + apply schedule_taken; trivial.
      rewrite scheduled_slots_app, in_app_iff. right. now left.
    + intros aid Haid. unfold cancelAppointment.
      apply not_authenticated_false in Hauth1. rewrite Hauth1, Haid.
      rewrite (cancel_loop_last (Py.str n) p1 citas
                 (Appointment.Make (Py.str n) p1 dn ds ts "scheduled"));
        [reflexivity| |].
      * apply List.Forall_forall. intros c Hc.
        now apply (next_number_fresh citas n c).
      * repeat split.
    + exact Hm.
  - intros built Hb. now apply booked_invariants.
Qed.

Lemma slot_invariant_preserved_witness :
  slot_invariant agenda
  /\ slot_invariant
       (snd (cancelAppointment usuarios agenda "pepe" "clave" (JStr "5")))
  /\ scheduleAppointment usuarios agenda "lola" "abc" "ruiz" "13/03/2024" "08:00"
     = Some (slot_taken, agenda)
  /\ (exists n m,
        let citas1 :=
          agenda ++ [Appointment.Make (Py.str n) "pepe" "soto" "14/03/2024"
                       "10:00" "scheduled"] in
        let citas2 :=
          agenda ++ [Appointment.Make (Py.str n) "pepe" "soto" "14/03/2024"
                       "10:00" "cancelled"] in
        scheduleAppointment usuarios agenda "pepe" "clave" "soto" "14/03/2024"
          "10:00" = Some (ok, citas1)
        /\ scheduleAppointment usuarios citas1 "lola" "abc" "soto" "14/03/2024"
             "10:00" = Some (slot_taken, citas1)
        /\ cancelAppointment usuarios citas1 "pepe" "clave" (JStr (Py.str n))
           = (ok, citas2)
        /\ scheduleAppointment usuarios citas2 "lola" "abc" "soto" "14/03/2024"
             "10:00"
           = Some (ok, citas2 ++ [Appointment.Make (Py.str m) "lola" "soto"
                                    "14/03/2024" "10:00" "scheduled"]))
  /\ (let citas1 :=
        agenda ++ [Appointment.Make "6" "pepe" "soto" "14/03/2024" "10:00"
                     "scheduled"] in
      let citas2 :=
        agenda ++ [Appointment.Make "6" "pepe" "soto" "14/03/2024" "10:00"
                     "cancelled"] in
      scheduleAppointment usuarios agenda "pepe" "clave" "soto" "14/03/2024"
        "10:00" = Some (ok, citas1)
      /\ scheduleAppointment usuarios citas1 "lola" "abc" "soto" "14/03/2024"
           "10:00" = Some (slot_taken, citas1)
      /\ cancelAppointment usuarios citas1 "pepe" "clave" (JInt 6) = (ok, citas2)
      /\ scheduleAppointment usuarios citas2 "lola" "abc" "soto" "14/03/2024"
           "10:00"
         = Some (ok, citas2 ++ [Appointment.Make "7" "lola" "soto" "14/03/2024"
                                  "10:00" "scheduled"])).
Proof.
  assert (H : slot_invariant agenda).
  { unfold slot_invariant. refine (bool_decide_unpack _ _).
    vm_compute. exact I. }
  assert (Hlola : authenticated usuarios "lola" "abc").
  { exists (User.Make "lola" (Some "abc") (Some "patient") (Some true)).
    repeat split; reflexivity. }
  split; [exact H|]. split; [|split; [|split]].
  - apply (proj1 (proj2 (slot_invariant_preserved usuarios agenda H))).
  - apply (proj1 (proj2 (proj2 (slot_invariant_preserved usuarios agenda H)))).
    + unfold passes. rewrite not_blank5. simpl.
      repeat split; try (intros [Hs _]; discriminate Hs); trivial.
      exists (User.Make "ruiz" (Some "x1") (Some "doctor") None).
      split; reflexivity.
    + vm_compute. auto.
  - destruct (proj1 (proj2 (proj2 (proj2
               (slot_invariant_preserved usuarios agenda H))))
               "pepe" "clave" "lola" "abc" "soto" "14/03/2024" "10:00")
      as (n & m & H1 & H2 & H3 & H4).
    + unfold passes. rewrite not_blank5. simpl.
      repeat split; try (intros [Hs _]; discriminate Hs).
      * exists (User.Make "soto" (Some "x2") (Some "doctor") (Some false)).
        split; reflexivity.
      * exists (User.Make "pepe" (Some "clave") (Some "patient") (Some true)).
        repeat split; reflexivity.
    + vm_compute. intuition discriminate.
    + repeat (constructor; [vm_compute; discriminate|]). constructor.
    + intros [Hs _]; discriminate Hs.
    + intros [Hs _]; discriminate Hs.
    + exact Hlola.
    + exists n, m. cbv zeta. split; [exact H1|]. split; [exact H2|].
      split; [|exact H4]. apply H3. reflexivity.
  - cbv zeta. repeat split; reflexivity.
Defined.
